(** * twitter_timeline: the paginated pull engine

    A shallow embedding of [utils/tweet_search.py] (class [TweetSearch]) and
    [utils/timeline.py] (class [Timeline]): the batch planning that opens
    [TweetSearch.pull], the bounded retry loop of [search_tweets] /
    [get_tweets], the link parser [__parse_tweet_links], the per-page merge
    of the pandas tables, statement by statement, and the two pagination
    loops; with them [pull_search], [Timeline._get_reaction_counts] and
    [PullTwitterAPI.create_output_dir]. *)

From Stdlib Require Import ZArith String Ascii.
From stdpp Require Import base tactics option list gmap strings.

Local Open Scope string_scope.
Local Open Scope Z_scope.
Local Open Scope list_scope.
#[local] Set Warnings "-register-all".

(** ** Python values and exceptions *)

(** The exceptions the two modules can meet.  [TwitterServerError] is
    tweepy's; [EmptyTwitterResponseException] and [MaxRetries] are the
    project's own ([utils/exceptions.py]); the others are builtins. *)
Inductive exn : Type :=
  | ZeroDivisionError
  | IndexError
  | KeyError
  | TypeError
  | AttributeError
  | NameError
  | FileExistsError
  | TwitterServerError
  | EmptyTwitterResponseException
  | MaxRetries
  | OtherError (name : string).

Global Instance exn_eq_dec : EqDecision exn.
Proof. solve_decision. Defined.

(** A computation either returns or raises. *)
Inductive result (A : Type) : Type :=
  | Ok (a : A)
  | Raise (e : exn).
Arguments Ok {A} a.
Arguments Raise {A} e.

Global Instance result_ret : MRet result := λ A a, Ok a.
Global Instance result_bind : MBind result := λ A B k r,
  match r with
  | Ok a => k a
  | Raise e => Raise e
  end.
Global Instance result_fmap : FMap result := λ A B f r,
  match r with
  | Ok a => Ok (f a)
  | Raise e => Raise e
  end.

Module Py.

(** [a // b] and [a % b] on Python ints: floor division, the remainder
    has the sign of the divisor, a zero divisor raises. *)
Definition floordiv (a b : Z) : result Z :=
  if decide (b = 0) then Raise ZeroDivisionError else Ok (a `div` b).

Definition modulo (a b : Z) : result Z :=
  if decide (b = 0) then Raise ZeroDivisionError else Ok (a `mod` b).

(** [[x] * n]: the empty list when [n <= 0]. *)
Definition list_mul {A} (x : A) (n : Z) : list A := replicate (Z.to_nat n) x.

(** [l[-k] = x] for a literal [k >= 1]: position [len(l) - k], and
    [IndexError] when the list has fewer than [k] elements. *)
Definition setitem_neg {A} (l : list A) (k : nat) (x : A) : result (list A) :=
  if decide (1 ≤ k ≤ length l)%nat then Ok (<[(length l - k)%nat := x]> l)
  else Raise IndexError.

Definition sum (l : list Z) : Z := foldr Z.add 0 l.

End Py.

(** ** Batch planning ([TweetSearch.pull], the lines before the loop) *)

(** The provider's minimum page size, written [10] in the source. *)
Definition min_final_batch : Z := 10.

Definition plan (max_results batch_size : Z) : result (list Z) :=
  q ← Py.floordiv max_results batch_size;
  let num_batches := q + 1 in
  let batches := Py.list_mul batch_size num_batches in
  last_batch_size ← Py.modulo max_results batch_size;
  if decide (last_batch_size < 10) then
    batches ← Py.setitem_neg batches 1 10;
    if decide (num_batches > 1) then
      Py.setitem_neg batches 2 (batch_size - (10 - last_batch_size))
    else Ok batches
  else
    Py.setitem_neg batches 1 last_batch_size.

(** ** Records as the API returns them *)

(** JSON-like Python values.  Python's [bool] is a subclass of [int]
    ([True == 1]), so booleans are [VInt]; [VNone] also stands for the
    missing cell ([NaN]) of a pandas table, which pandas treats alike. *)
Inductive value : Type :=
  | VNone
  | VInt (z : Z)
  | VStr (s : string)
  | VList (l : list value)
  | VDict (d : list (string * value)).

Global Instance value_eq_dec : EqDecision value.
Proof.
  refine (fix go (a b : value) {struct a} : Decision (a = b) :=
    match a, b with
    | VNone, VNone => left _
    | VInt x, VInt y => cast_if (decide (x = y))
    | VStr s, VStr t => cast_if (decide (s = t))
    | VList l, VList m => cast_if (@list_eq_dec _ go l m)
    | VDict d, VDict e => cast_if (@list_eq_dec _ (@prod_eq_dec _ _ _ go) d e)
    | _, _ => right _
    end); congruence.
Defined.

(** A Python [dict] with string keys, in insertion order. *)
Abbreviation dict := (list (string * value)).

Fixpoint dict_get (k : string) (d : dict) : option value :=
  match d with
  | [] => None
  | (k', v) :: rest => if decide (k = k') then Some v else dict_get k rest
  end.

Definition has_key (k : string) (d : dict) : Prop := is_Some (dict_get k d).

Global Instance has_key_dec k d : Decision (has_key k d).
Proof. unfold has_key. apply _. Defined.

(** [d[k]] on a dict. *)
Definition subscript (d : dict) (k : string) : result value :=
  match dict_get k d with
  | Some v => Ok v
  | None => Raise KeyError
  end.

(** [v[k]] with a string key on an arbitrary value: only a dict accepts it. *)
Definition getitem (v : value) (k : string) : result value :=
  match v with
  | VDict d => subscript d k
  | _ => Raise TypeError
  end.

(** [for x in v]: the elements of a list, the keys of a dict, the
    characters of a string; nothing else is iterable. *)
Definition iterate (v : value) : result (list value) :=
  match v with
  | VList l => Ok l
  | VDict d => Ok (VStr <$> d.*1)
  | VStr s => Ok ((λ c, VStr (String c EmptyString)) <$> list_ascii_of_string s)
  | _ => Raise TypeError
  end.

(** Truthiness of an optional list ([if tweets:]). *)
Definition truthy {A} (o : option (list A)) : bool :=
  match o with
  | Some (_ :: _) => true
  | _ => false
  end.

Definition items {A} (o : option (list A)) : list A := default [] o.

(** ** [__parse_tweet_links] (identical in both classes) *)

Definition new_link (tweet : dict) (ref : value) : result dict :=
  parent_id ← subscript tweet "id";
  id ← getitem ref "id";
  type ← getitem ref "type";
  Ok [("parent_id", parent_id); ("id", id); ("type", type)].

(** The inner loop: one link per entry, appended to [tweet_links]. *)
Fixpoint parse_refs (tweet : dict) (refs : list value) (tweet_links : list dict)
  : result (list dict) :=
  match refs with
  | [] => Ok tweet_links
  | ref :: rest =>
      link ← new_link tweet ref;
      parse_refs tweet rest (tweet_links ++ [link])
  end.

Definition parse_tweet (tweet : dict) (tweet_links : list dict) : result (list dict) :=
  referenced_tweets ← subscript tweet "referenced_tweets";
  match referenced_tweets with
  | VNone => Ok tweet_links
  | _ => refs ← iterate referenced_tweets; parse_refs tweet refs tweet_links
  end.

Fixpoint parse_tweets (tweets : list dict) (tweet_links : list dict)
  : result (list dict) :=
  match tweets with
  | [] => Ok tweet_links
  | tweet :: rest =>
      tweet_links ← parse_tweet tweet tweet_links;
      parse_tweets rest tweet_links
  end.

Definition parse_tweet_links (tweets : list dict) : result (list dict) :=
  parse_tweets tweets [].

(** ** The pandas operations the two [pull] methods use *)

(** A table: column labels and, per row, one cell per column.  Labels may
    repeat (a column-wise [concat] produces that).  The row index of pandas
    is left out: a table made from a list is indexed from 0, and of the
    operations below only the column-wise [concat] looks at the index.

    A cell is the value the record gave.  pandas keeps each column in one
    storage type and holds an integer column that has a missing cell as
    floats; that storage type is not modelled, so a cell here stands for
    the value pandas was given, not for its digits on disk.  The
    statements about tables below are chosen to hold whatever the storage
    type: the shape of a table, that no two of its rows are equal, that a
    merge leaves it as it was, that a file holds the table. *)
Record DataFrame : Type := mkDF {
  columns : list string;
  rows : list (list value)
}.

Global Instance DataFrame_eq_dec : EqDecision DataFrame.
Proof. solve_decision. Defined.

(** Removes repetitions, keeping each first occurrence in place. *)
Fixpoint uniq {A} `{EqDecision A} (l : list A) : list A :=
  match l with
  | [] => []
  | x :: rest => x :: filter (λ y, y ≠ x) (uniq rest)
  end.

Definition cell (record : dict) (column : string) : value :=
  default VNone (dict_get column record).

Module pd.

Definition reindex (cols : list string) (df : DataFrame) : list (list value) :=
  (λ row, cell (zip (columns df) row) <$> cols) <$> rows df.

(** [pd.concat([a, b], axis=0)]: rows of [a], then rows of [b], over the
    union of the columns. *)
Definition concat_axis0 (a b : DataFrame) : DataFrame :=
  let cols := uniq (columns a ++ columns b) in
  mkDF cols (reindex cols a ++ reindex cols b).

Definition row_at (df : DataFrame) (i : nat) : list value :=
  default (replicate (length (columns df)) VNone) (rows df !! i).

(** [pd.concat([a, b], axis=1)]: the columns of [b] are put beside those
    of [a], row [i] beside row [i] (both tables are indexed from 0); the
    shorter table is padded with missing cells. *)
Definition concat_axis1 (a b : DataFrame) : DataFrame :=
  let n := (length (rows a) `max` length (rows b))%nat in
  mkDF (columns a ++ columns b) ((λ i, row_at a i ++ row_at b i) <$> seq 0 n).

Definition hashable (v : value) : bool :=
  match v with
  | VList _ | VDict _ => false
  | _ => true
  end.

(** [df.drop_duplicates()]: rows equal in every column are duplicates,
    the first is kept.  pandas hashes the cells, so a list or dict cell
    raises [TypeError]. *)
Definition drop_duplicates (df : DataFrame) : result DataFrame :=
  if forallb (forallb hashable) (rows df)
  then Ok (mkDF (columns df) (uniq (rows df)))
  else Raise TypeError.

(** [df[col] = x] with a scalar [x]. *)
Definition set_column (col : string) (x : value) (df : DataFrame) : DataFrame :=
  if decide (col ∈ columns df) then
    mkDF (columns df)
         ((λ row, zip_with (λ c v, if decide (c = col) then x else v)
                           (columns df) row) <$> rows df)
  else mkDF (columns df ++ [col]) ((λ row, row ++ [x]) <$> rows df).

Definition len (df : DataFrame) : nat := length (rows df).

(** [pd.DataFrame(records)]: the columns are the keys in order of first
    appearance, a key a record lacks gives a missing cell. *)
Definition DataFrame (records : list dict) : DataFrame :=
  let cols := uniq (mjoin ((λ r : dict, r.*1) <$> records)) in
  mkDF cols ((λ r, cell r <$> cols) <$> records).

End pd.

(** The first-page / later-page pattern
    [pd.concat([df, new], ...) if df is not None else new]. *)
Definition concat_or_new (concat : DataFrame → DataFrame → DataFrame)
    (df : option DataFrame) (new : DataFrame) : DataFrame :=
  match df with
  | Some old => concat old new
  | None => new
  end.

(** ** Output files *)

Inductive format : Type :=
  | CsvQuoteAll   (* [to_csv(..., index=False, quoting=csv.QUOTE_ALL, header=True)] *)
  | JsonTable.    (* [to_json(..., orient='table')] *)

Global Instance format_eq_dec : EqDecision format.
Proof. solve_decision. Defined.

(** The output directory: what each path holds.  A write replaces the
    whole file. *)
Abbreviation files := (gmap string (format * DataFrame)).

(** [save_path = f"{output_dir}/data_%s.{save_format}"]. *)
Definition save_path (output_dir save_format : string) : string :=
  output_dir +:+ "/data_%s." +:+ save_format.

(** [save_path % kind] for a template whose one conversion is the [%s]
    the source writes, that is when neither [output_dir] nor
    [save_format] holds a [%]: Python reads any further [%] of the
    template as a conversion of its own.  The statements about the named
    files are made for directories without one ([percent_free]). *)
Definition save_path_for (output_dir save_format kind : string) : string :=
  output_dir +:+ "/data_" +:+ kind +:+ "." +:+ save_format.

(** ** Directories ([os.path.isdir], [os.mkdir], [os.makedirs]) *)

(** What a path names. *)
Inductive entry : Type :=
  | Directory
  | RegularFile.

Global Instance entry_eq_dec : EqDecision entry.
Proof. solve_decision. Defined.

(** The file system as to its directories: what each path names, if
    anything. *)
Abbreviation tree := (gmap string entry).

Module os.

Definition isdir (path : string) (t : tree) : bool :=
  bool_decide (t !! path = Some Directory).

Definition exists_ (path : string) (t : tree) : bool :=
  bool_decide (is_Some (t !! path)).

(** [os.mkdir(path)], [parent] being the directory [path] lies in
    ([None] for a path without one): the path must be free and the
    parent a directory. *)
Definition mkdir (parent : option string) (path : string) (t : tree) : result tree :=
  if exists_ path t then Raise FileExistsError
  else
    match parent with
    | None => Ok (<[path := Directory]> t)
    | Some dir =>
        match t !! dir with
        | Some Directory => Ok (<[path := Directory]> t)
        | Some RegularFile => Raise (OtherError "NotADirectoryError")
        | None => Raise (OtherError "FileNotFoundError")
        end
    end.

(** [os.makedirs(name, exist_ok)], [ancestors] being the directories
    above [name], the nearest first: when the nearest does not exist it
    is made first, in the same way, a [FileExistsError] from that being
    passed over; then [mkdir(name)], whose failure is passed over only
    when [exist_ok] is set and [name] is a directory.  The result is the
    exception raised, if any, and the tree as it then is. *)
Fixpoint makedirs (name : string) (ancestors : list string) (exist_ok : bool)
    (t : tree) : option exn * tree :=
  let '(raised, t) :=
    match ancestors with
    | head :: above =>
        if exists_ head t then (None, t)
        else
          match makedirs head above exist_ok t with
          | (Some FileExistsError, t) => (None, t)
          | r => r
          end
    | [] => (None, t)
    end in
  match raised with
  | Some e => (Some e, t)
  | None =>
      match mkdir (head ancestors) name t with
      | Ok t' => (None, t')
      | Raise e => if exist_ok && isdir name t then (None, t) else (Some e, t)
      end
  end.

End os.

(** ** The remote client and [twitteralchemy] *)

(** One page as tweepy returns it: [response.data], the three expansion
    lists of [response.includes] (absent or present) and
    [response.meta.get('next_token', None)]. *)
Record Response : Type := mkResponse {
  data : option (list dict);
  includes_tweets : option (list dict);
  includes_users : option (list dict);
  includes_media : option (list dict);
  meta_next_token : option string
}.

(** What varies from one call to the next; the query, the time window and
    the field selection are fixed for a session and live in the client. *)
Record Request : Type := mkRequest {
  req_max_results : Z;
  req_next_token : option string
}.

Inductive outcome : Type :=
  | Responds (response : Response)
  | Throws (e : exn).

(** [client n request] is what the [n]-th call made on the client does
    (counting from 0). *)
Abbreviation Client := (nat → Request → outcome).

(** The conversions of the [twitteralchemy] models, an external package,
    taken as given and total: [twalc.Tweet(..).to_dict()] and its
    siblings, and the row pandas makes of a model object that was not
    converted ([Timeline] passes the [twalc.Tweet] objects themselves to
    [pd.DataFrame]). *)
Class Twalc : Type := {
  Tweet_to_dict : dict → dict;
  User_to_dict : dict → dict;
  Media_to_dict : dict → dict;
  Tweet_row : dict → dict;
  User_row : dict → dict
}.

(** ** Bounded retry ([search_tweets], [get_tweets]) *)

Definition max_retries : nat := 5.

(** [while retries < max_retries]: [left] is [max_retries - retries].
    Returns what the method returns ([None] when the loop runs out, since
    nothing follows it) or raises, and the number of client calls made. *)
Fixpoint retry_loop (client : Client) (request : Request) (left calls : nat)
  : result (option Response) * nat :=
  match left with
  | O => (Ok None, calls)
  | S left' =>
      match client calls request with
      | Responds response => (Ok (Some response), S calls)
      | Throws TwitterServerError => retry_loop client request left' (S calls)
      | Throws e => (Raise e, S calls)
      end
  end.

Definition search_tweets (client : Client) (calls : nat)
    (max_results : Z) (next_token : option string)
  : result (option Response) * nat :=
  retry_loop client (mkRequest max_results next_token) max_retries calls.

Definition get_tweets (client : Client) (calls : nat)
    (next_token : option string) (tweets_per_query : Z)
  : result (option Response) * nat :=
  retry_loop client (mkRequest tweets_per_query next_token) max_retries calls.

(** ** Sessions *)

(** The local variables of [pull] that live across iterations, the output
    directory, and two counters for the proofs: client calls and fetch
    cycles (calls of [search_tweets] / [get_tweets]). *)
Record Session : Type := mkSession {
  next_token : option string;
  num_collected : nat;
  df_links : option DataFrame;
  df_refs : option DataFrame;
  df_users : option DataFrame;
  df_tweets : option DataFrame;
  df_media : option DataFrame;
  out : files;
  calls : nat;
  fetches : nat
}.

Definition start (fs : files) : Session :=
  mkSession None 0 None None None None None fs 0 0.

Definition fetched (calls' : nat) (st : Session) : Session :=
  mkSession (next_token st) (num_collected st) (df_links st) (df_refs st)
            (df_users st) (df_tweets st) (df_media st) (out st)
            calls' (S (fetches st)).

Definition advance (token : option string) (st : Session) : Session :=
  mkSession token (num_collected st) (df_links st) (df_refs st)
            (df_users st) (df_tweets st) (df_media st) (out st)
            (calls st) (fetches st).

(** Assignments to the variables of [pull]. *)
Definition set_df_links (df : option DataFrame) (st : Session) : Session :=
  mkSession (next_token st) (num_collected st) df (df_refs st)
            (df_users st) (df_tweets st) (df_media st) (out st)
            (calls st) (fetches st).

Definition set_df_refs (df : option DataFrame) (st : Session) : Session :=
  mkSession (next_token st) (num_collected st) (df_links st) df
            (df_users st) (df_tweets st) (df_media st) (out st)
            (calls st) (fetches st).

Definition set_df_users (df : option DataFrame) (st : Session) : Session :=
  mkSession (next_token st) (num_collected st) (df_links st) (df_refs st)
            df (df_tweets st) (df_media st) (out st)
            (calls st) (fetches st).

Definition set_df_tweets (df : option DataFrame) (st : Session) : Session :=
  mkSession (next_token st) (num_collected st) (df_links st) (df_refs st)
            (df_users st) df (df_media st) (out st)
            (calls st) (fetches st).

Definition set_df_media (df : option DataFrame) (st : Session) : Session :=
  mkSession (next_token st) (num_collected st) (df_links st) (df_refs st)
            (df_users st) (df_tweets st) df (out st)
            (calls st) (fetches st).

Definition set_out (fs : files) (st : Session) : Session :=
  mkSession (next_token st) (num_collected st) (df_links st) (df_refs st)
            (df_users st) (df_tweets st) (df_media st) fs
            (calls st) (fetches st).

Definition set_num_collected (n : nat) (st : Session) : Session :=
  mkSession (next_token st) n (df_links st) (df_refs st)
            (df_users st) (df_tweets st) (df_media st) (out st)
            (calls st) (fetches st).

(** A statement changes the variables and may raise; the variables are
    then as the statement left them. *)
Definition stmt : Type := Session → option exn * Session.

(** One statement after the other: the second is not run when the first
    raises. *)
Definition seq (first second : stmt) : stmt := λ st,
  match first st with
  | (None, st) => second st
  | (Some e, st) => (Some e, st)
  end.

Infix ";;;" := seq (at level 65, right associativity).

(** How a session ends: the loop is left normally, or an exception
    leaves [pull]. *)
Inductive ending : Type :=
  | Done
  | Aborted (e : exn).

(** [df.to_csv(path, ...)] / [df.to_json(path, ...)] on a table variable
    that may still be [None]: the file at [path] becomes the table. *)
Definition write (fmt : format) (path : string) (df : option DataFrame) (fs : files)
  : result files :=
  match df with
  | Some d => Ok (<[path := (fmt, d)]> fs)
  | None => Raise AttributeError
  end.

Definition write_if (b : bool) (fmt : format) (path : string)
    (df : option DataFrame) (fs : files) : result files :=
  if b then write fmt path df fs else Ok fs.

Definition has_refs (tweet_fields : list string) : bool :=
  bool_decide ("referenced_tweets" ∈ tweet_fields).

(** ** [TweetSearch.pull] *)

Module TweetSearch.
Section pull.

Context `{Twalc}.
Variable client : Client.
(** [self.query_params.tweet_fields] *)
Variable tweet_fields : list string.
Variables output_dir save_format : string.

(** [pd.concat([df, new], axis = 0) if df is not None else new], then
    [drop_duplicates()]. *)
Definition merge (df : option DataFrame) (new : DataFrame) : result DataFrame :=
  pd.drop_duplicates (concat_or_new pd.concat_axis0 df new).

(** The same under [if b:]: what the table variable holds afterwards. *)
Definition merge_if (b : bool) (df : option DataFrame) (new : DataFrame)
  : result (option DataFrame) :=
  if b then Some <$> merge df new else Ok df.

(** The saving block.  The [json] branch first tests [inc_tweets], a
    name this method never binds. *)
Definition save (ref_tweets rel_users inc_media : bool)
    (refs users media links tweets : option DataFrame) (fs : files)
  : result files :=
  if decide (save_format = "csv") then
    let path := save_path_for output_dir save_format in
    fs ← write_if ref_tweets CsvQuoteAll (path "ref_tweets") refs fs;
    fs ← write_if rel_users CsvQuoteAll (path "users") users fs;
    fs ← write_if inc_media CsvQuoteAll (path "media") media fs;
    fs ← write_if (has_refs tweet_fields) CsvQuoteAll (path "ref_links") links fs;
    write CsvQuoteAll (path "tweets") tweets fs
  else if decide (save_format = "json") then Raise NameError
  else Ok fs.

(** [if b: df = pd.concat([df, new], axis = 0) if df is not None else
    new; df = df.drop_duplicates()] on the table variable read by [get]
    and assigned by [set].  When [drop_duplicates] raises, the variable
    holds the table that was to be deduplicated. *)
Definition merge_into (b : bool) (get : Session → option DataFrame)
    (set : option DataFrame → Session → Session) (new : DataFrame) : stmt := λ st,
  if b then
    match merge (get st) new with
    | Ok d => (None, set (Some d) st)
    | Raise e => (Some e, set (Some (concat_or_new pd.concat_axis0 (get st) new)) st)
    end
  else (None, st).

(** The saving block as a statement.  Each table it writes was assigned
    by the statements before it, so its one raise is the [NameError] of
    the [json] branch, which comes before any write. *)
Definition saving (ref_tweets rel_users inc_media : bool) : stmt := λ st,
  match save ref_tweets rel_users inc_media (df_refs st) (df_users st) (df_media st)
             (df_links st) (df_tweets st) (out st) with
  | Ok fs => (None, set_out fs st)
  | Raise e => (Some e, st)
  end.

(** One iteration of the loop from [tweets = response.data] down to
    [num_collected += len(tweets)], statement by statement: the exception
    that ends it, if any, and the variables as they then are. *)
Definition page_body (st : Session) (response : Response) : option exn * Session :=
  let tweets := data response in
  let ref_tweets := includes_tweets response in
  let rel_users := includes_users response in
  let inc_media := includes_media response in
  if truthy tweets then
    let ref_dicts := Tweet_to_dict <$> items ref_tweets in
    let user_dicts := User_to_dict <$> items rel_users in
    let media := Media_to_dict <$> items inc_media in
    match (if has_refs tweet_fields then parse_tweet_links (items tweets)
           else Ok []) with
    | Raise e => (Some e, st)
    | Ok links =>
        let tweets := Tweet_to_dict <$> items tweets in
        (merge_into (truthy ref_tweets) df_refs set_df_refs (pd.DataFrame ref_dicts) ;;;
         merge_into (truthy rel_users) df_users set_df_users (pd.DataFrame user_dicts) ;;;
         merge_into (truthy inc_media) df_media set_df_media (pd.DataFrame media) ;;;
         merge_into (has_refs tweet_fields) df_links set_df_links (pd.DataFrame links) ;;;
         (λ st, (None, set_df_tweets
                         (Some (concat_or_new pd.concat_axis0 (df_tweets st)
                                  (pd.DataFrame tweets))) st)) ;;;
         saving (truthy ref_tweets) (truthy rel_users) (truthy inc_media) ;;;
         (λ st, (None, set_num_collected (num_collected st + length tweets)%nat st)))
          st
    end
  else (None, st).

(** The iteration when nothing raises in it. *)
Definition page (st : Session) (response : Response) : result Session :=
  match page_body st response with
  | (None, st) => Ok st
  | (Some e, _) => Raise e
  end.

(** [for batch in batches: ...].  The two project exceptions make the
    loop [continue]; any other exception leaves [pull], as does the
    attribute access [response.data] on a [None] response.  The state
    returned with an exception holds the variables as they were when it
    was raised. *)
Fixpoint loop (batches : list Z) (st : Session) : ending * Session :=
  match batches with
  | [] => (Done, st)
  | batch :: rest =>
      let '(r, calls') := search_tweets client (calls st) batch (next_token st) in
      let st := fetched calls' st in
      match r with
      | Raise EmptyTwitterResponseException => loop rest st
      | Raise MaxRetries => loop rest st
      | Raise e => (Aborted e, st)
      | Ok None => (Aborted AttributeError, st)
      | Ok (Some response) =>
          match page_body st response with
          | (Some e, st) => (Aborted e, st)
          | (None, st) =>
              let st := advance (meta_next_token response) st in
              match meta_next_token response with
              | None => (Done, st)
              | Some _ => loop rest st
              end
          end
      end
  end.

Definition pull (fs : files) (max_results batch_size : Z) : ending * Session :=
  match plan max_results batch_size with
  | Raise e => (Aborted e, start fs)
  | Ok batches => loop batches (start fs)
  end.

End pull.
End TweetSearch.

(** ** [Timeline.pull] *)

Module Timeline.
Section pull.

Context `{Twalc}.
Variable client : Client.
Variable tweet_fields : list string.
Variables handle output_dir save_format : string.
Variable output_handle : bool.
Variable handle_col : string.
Variable tweets_per_query : Z.

Definition save_dir : string := output_dir +:+ "/" +:+ handle.

(** [pd.concat([df, new], axis = 1) if df is not None else new]. *)
Definition merge (df : option DataFrame) (new : DataFrame) : DataFrame :=
  concat_or_new pd.concat_axis1 df new.

Definition merge_if (b : bool) (df : option DataFrame) (new : DataFrame)
  : option DataFrame :=
  if b then Some (merge df new) else df.

Definition save (inc_tweets inc_users : bool)
    (refs users links tweets : option DataFrame) (fs : files) : result files :=
  if decide (save_format = "csv") then
    let path := save_path_for save_dir save_format in
    fs ← write_if inc_tweets CsvQuoteAll (path "ref_tweets") refs fs;
    fs ← write_if inc_users CsvQuoteAll (path "authors") users fs;
    fs ← write_if (has_refs tweet_fields) CsvQuoteAll (path "ref_links") links fs;
    write CsvQuoteAll (path "tweets") tweets fs
  else if decide (save_format = "json") then
    let path := save_path_for save_dir save_format in
    fs ← write_if inc_tweets JsonTable (path "ref_tweets") refs fs;
    fs ← write_if inc_users JsonTable (path "authors") users fs;
    fs ← write_if (has_refs tweet_fields) JsonTable (path "ref_links") links fs;
    write JsonTable (save_path save_dir save_format) tweets fs
  else Ok fs.

(** One iteration of the loop from [tweets = response.data] down to
    [num_collected += len(tweets)].  Only the link parser raises in it,
    before any table is assigned ([timeline_page_Raise] below): a page
    that raises leaves the variables as they were. *)
Definition page (st : Session) (response : Response) : result Session :=
  let tweets := data response in
  let inc_tweets := includes_tweets response in
  let inc_users := includes_users response in
  if truthy tweets then
    let ref_tweets := Tweet_row <$> items inc_tweets in
    let authors := User_row <$> items inc_users in
    links ← (if has_refs tweet_fields then parse_tweet_links (items tweets)
             else Ok []);
    let tweets := Tweet_to_dict <$> items tweets in
    let refs' := merge_if (truthy inc_tweets) (df_refs st) (pd.DataFrame ref_tweets) in
    let users' := merge_if (truthy inc_users) (df_users st) (pd.DataFrame authors) in
    let links' := merge_if (has_refs tweet_fields) (df_links st) (pd.DataFrame links) in
    let tweets' := merge (df_tweets st) (pd.DataFrame tweets) in
    let tweets' :=
      Some (if output_handle then pd.set_column handle_col (VStr handle) tweets'
            else tweets') in
    fs ← save (truthy inc_tweets) (truthy inc_users)
              refs' users' links' tweets' (out st);
    Ok (mkSession (next_token st) (num_collected st + length tweets)%nat
                  links' refs' users' tweets' (df_media st) fs
                  (calls st) (fetches st))
  else Ok st.

(** [while not finished: ...].  The loop has no bound of its own, so the
    model takes fuel and answers [None] when it runs out. *)
Fixpoint loop (fuel : nat) (st : Session) : option (ending * Session) :=
  match fuel with
  | O => None
  | S fuel =>
      let '(r, calls') := get_tweets client (calls st) (next_token st) tweets_per_query in
      let st := fetched calls' st in
      match r with
      | Raise EmptyTwitterResponseException => loop fuel st
      | Raise MaxRetries => loop fuel st
      | Raise e => Some (Aborted e, st)
      | Ok None => Some (Aborted AttributeError, st)
      | Ok (Some response) =>
          match page st response with
          | Raise e => Some (Aborted e, st)
          | Ok st =>
              let st := advance (meta_next_token response) st in
              match meta_next_token response with
              | None => Some (Done, st)
              | Some _ => loop fuel st
              end
          end
      end
  end.

(** [user] is the outcome of [self.client.get_user(username=handle).data.id]
    and [t] the directories the session finds.  [os.mkdir(save_dir)]
    makes the session's directory in [output_dir] (a handle holds no [/])
    before the first fetch, whatever the format, and raises when the path
    is taken or [output_dir] is no directory.  The result is how the loop
    ends, if it does, and the directories as the call leaves them. *)
Definition pull (user : result Z) (t : tree) (fs : files) (fuel : nat)
  : option (ending * Session) * tree :=
  match user with
  | Raise e => (Some (Aborted e, start fs), t)
  | Ok user_id =>
      match os.mkdir (Some output_dir) save_dir t with
      | Raise e => (Some (Aborted e, start fs), t)
      | Ok t => (loop fuel (start fs), t)
      end
  end.

End pull.
End Timeline.

(** ** [Timeline._get_reaction_counts] *)

(** [obj.name] on an object given by its attributes. *)
Definition getattr (obj : dict) (name : string) : result value :=
  match dict_get name obj with
  | Some v => Ok v
  | None => Raise AttributeError
  end.

Definition _get_reaction_counts (tweet : dict) : result dict :=
  metrics ← getattr tweet "public_metrics";
  likes ← getitem metrics "like_count";
  retweets ← getitem metrics "retweet_count";
  replies ← getitem metrics "reply_count";
  quotes ← getitem metrics "quote_count";
  Ok [("likes", likes); ("retweets", retweets); ("replies", replies); ("quotes", quotes)].

(** ** [pull_search] *)

(** The parts of the configuration [pull_search] reads:
    [config.twitter.query_params] (its [tweet_fields]),
    [config.local.output_dir] and [config.twitter.account.tweets_per_query]. *)
Record TwitterPullConfig : Type := mkConfig {
  config_tweet_fields : list string;
  config_output_dir : string;
  config_tweets_per_query : Z
}.

(** [pull_search(config, client, query, max_response)]: a search that
    saves as [csv] (the format is not passed on), any exception caught
    and printed.  The result is the exception printed, if any, and the
    state the search ended in. *)
Definition pull_search `{Twalc} (config : TwitterPullConfig) (client : Client)
    (fs : files) (max_response : Z) : option exn * Session :=
  let '(ending, st) :=
    TweetSearch.pull client (config_tweet_fields config) (config_output_dir config)
      "csv" fs max_response (config_tweets_per_query config) in
  (match ending with Done => None | Aborted e => Some e end, st).

(** ** [PullTwitterAPI.create_output_dir] *)

(** [timestamp] is [datetime.now().strftime('%Y-%m-%d %H.%M.%S')].  The
    subcommand and the timestamp hold no [/], so that [subcommand_dir]
    lies in [output_dir] and [output_time_dir] in [subcommand_dir].  The
    result is the directory returned, or the exception raised, and the
    tree as the call leaves it. *)
Definition create_output_dir (output_dir subcomm timestamp : string) (t : tree)
  : result string * tree :=
  let subcommand_dir := output_dir +:+ "/" +:+ subcomm in
  let output_time_dir := subcommand_dir +:+ "/" +:+ timestamp in
  match (if os.isdir subcommand_dir t then Ok t
         else os.mkdir (Some output_dir) subcommand_dir t) with
  | Raise e => (Raise e, t)
  | Ok t =>
      match os.makedirs output_time_dir [subcommand_dir; output_dir] false t with
      | (Some e, t) => (Raise e, t)
      | (None, t) => (Ok output_time_dir, t)
      end
  end.

(** * Statements

    The predicates the properties below are stated with. *)

(** The plan in closed form, for a positive cap and a total that is not
    negative: [q] full batches and the remainder, or, when the remainder
    is below 10, a last batch of 10 paid for by the batch before it. *)
Definition plan_shape (total cap : Z) : list Z :=
  let q := total `div` cap in
  let r := total `mod` cap in
  if decide (r < 10) then
    if decide (1 ≤ q) then replicate (Z.to_nat (q - 1)) cap ++ [cap - (10 - r); 10]
    else [10]
  else replicate (Z.to_nat q) cap ++ [r].

(** What the planner promises about sizes: a total below the minimum gets
    the single batch [[min_final_batch]], any other total gets batches
    that all lie between the minimum and the per-call cap. *)
Definition plan_bounded (total cap : Z) : Prop :=
  ∃ batches, plan total cap = Ok batches ∧
    if decide (total < min_final_batch) then batches = [min_final_batch]
    else Forall (λ b, min_final_batch ≤ b ≤ cap) batches.

(** The planner refuses its input: it raises instead of returning a plan. *)
Definition plan_fails (total cap : Z) : Prop := ∃ e, plan total cap = Raise e.

(** A link [parent_id] that is the [id] of one of the page's records. *)
Definition parent_in_page (tweets : list dict) (link : dict) : Prop :=
  ∃ tweet parent_id, tweet ∈ tweets
    ∧ dict_get "id" tweet = Some parent_id
    ∧ dict_get "parent_id" link = Some parent_id.

(** A table variable of [pull]: still [None], or a table. *)
Definition table_len (df : option DataFrame) : nat := from_option pd.len 0%nat df.



(** The cells of one column, top to bottom. *)
Definition column (label : string) (df : DataFrame) : list value :=
  (λ row, cell (zip (columns df) row) label) <$> rows df.


(** The row pandas makes of a record in a table with the given columns. *)
Definition row_of (record : dict) (df : DataFrame) : list value :=
  cell record <$> columns df.

(** What a file holds when it was written from a table variable. *)
Definition stored (fmt : format) (df : option DataFrame) : option (format * DataFrame) :=
  (λ d, (fmt, d)) <$> df.

(** The kinds [TweetSearch.pull] writes, as they appear in the file names. *)
Definition search_kinds : list string :=
  ["ref_tweets"; "users"; "media"; "ref_links"; "tweets"].

(** What the file of a table holds in a [csv] session: the table in
    full once it exists, and until then what the file held when the
    session started, if there was one. *)
Definition on_disk (fs : files) (path : string) (df : option DataFrame)
  : option (format * DataFrame) :=
  match df with
  | Some d => Some (CsvQuoteAll, d)
  | None => fs !! path
  end.

(** The output directory mirrors the tables of a [csv] search session
    that started on the directory [fs]. *)
Definition search_output_synced (dir : string) (fs : files) (st : Session) : Prop :=
  out st !! save_path_for dir "csv" "ref_tweets"
  = on_disk fs (save_path_for dir "csv" "ref_tweets") (df_refs st)
  ∧ out st !! save_path_for dir "csv" "users"
    = on_disk fs (save_path_for dir "csv" "users") (df_users st)
  ∧ out st !! save_path_for dir "csv" "media"
    = on_disk fs (save_path_for dir "csv" "media") (df_media st)
  ∧ out st !! save_path_for dir "csv" "ref_links"
    = on_disk fs (save_path_for dir "csv" "ref_links") (df_links st)
  ∧ out st !! save_path_for dir "csv" "tweets"
    = on_disk fs (save_path_for dir "csv" "tweets") (df_tweets st).

(** The kinds [Timeline.pull] writes; the users go by [authors] here. *)
Definition timeline_kinds : list string :=
  ["ref_tweets"; "authors"; "ref_links"; "tweets"].

(** The same for a [csv] timeline session, whose files are in [dir]. *)
Definition timeline_output_synced (dir : string) (fs : files) (st : Session) : Prop :=
  out st !! save_path_for dir "csv" "ref_tweets"
  = on_disk fs (save_path_for dir "csv" "ref_tweets") (df_refs st)
  ∧ out st !! save_path_for dir "csv" "authors"
    = on_disk fs (save_path_for dir "csv" "authors") (df_users st)
  ∧ out st !! save_path_for dir "csv" "ref_links"
    = on_disk fs (save_path_for dir "csv" "ref_links") (df_links st)
  ∧ out st !! save_path_for dir "csv" "tweets"
    = on_disk fs (save_path_for dir "csv" "tweets") (df_tweets st)
  ∧ df_media st = None.

(** No file but those of the given kinds differs from the directory [fs]
    the session started with. *)
Definition output_confined (dir : string) (kinds : list string) (fs : files)
    (st : Session) : Prop :=
  ∀ path, (∀ kind, kind ∈ kinds → path ≠ save_path_for dir "csv" kind) →
          out st !! path = fs !! path.

(** The link table exists as soon as a tweet was counted, when the links
    field is requested. *)
Definition link_table_made (fields : list string) (st : Session) : Prop :=
  "referenced_tweets" ∈ fields → (0 < num_collected st)%nat → is_Some (df_links st).

(** The text holds no [%]: put into the template of [save_path], it adds
    no conversion to the one the source writes. *)
Definition percent_free (s : string) : Prop := index 0 "%" s = None.

(** The remote answers its calls with [pages], in order, starting with
    its [k]-th call. *)
Definition serves_from (client : Client) (k : nat) (pages : list Response) : Prop :=
  ∀ n r request, pages !! n = Some r → client (k + n)%nat request = Responds r.

(** The last page, and only the last, has no continuation token. *)
Definition ends_with_null_cursor (pages : list Response) : Prop :=
  ∃ before last, pages = before ++ [last]
    ∧ Forall (λ r, is_Some (meta_next_token r)) before
    ∧ meta_next_token last = None.

(** A page that carries tweets only, no expansions. *)
Definition plain_page (r : Response) : Prop :=
  includes_tweets r = None ∧ includes_users r = None ∧ includes_media r = None.

(** Merging the given pages one after the other, as a session that was
    served exactly these pages does; [Raise] when a merge raises. *)
Fixpoint search_merge_all `{Twalc} (fields : list string) (dir fmt : string)
    (st : Session) (pages : list Response) : result Session :=
  match pages with
  | [] => Ok st
  | r :: rest =>
      st ← TweetSearch.page fields dir fmt (fetched (S (calls st)) st) r;
      search_merge_all fields dir fmt (advance (meta_next_token r) st) rest
  end.

Fixpoint timeline_merge_all `{Twalc} (fields : list string) (handle dir fmt : string)
    (output_handle : bool) (handle_col : string)
    (st : Session) (pages : list Response) : result Session :=
  match pages with
  | [] => Ok st
  | r :: rest =>
      st ← Timeline.page fields handle dir fmt output_handle handle_col
             (fetched (S (calls st)) st) r;
      timeline_merge_all fields handle dir fmt output_handle handle_col
        (advance (meta_next_token r) st) rest
  end.

(** ** Concrete remotes

    Small clients and pages on which the sessions are run below. *)

(** A file system with the output directory ["out"] and nothing in it. *)
Definition only_out : tree := {[ "out" := Directory ]}.

(** [twitteralchemy] conversions that hand the record back as it is, for
    the concrete sessions below. *)
Definition plain_twalc : Twalc :=
  {| Tweet_to_dict := λ d, d; User_to_dict := λ d, d; Media_to_dict := λ d, d;
     Tweet_row := λ d, d; User_row := λ d, d |}.

Definition serve (pages : list Response) : Client := λ n _,
  match pages !! n with
  | Some r => Responds r
  | None => Throws (OtherError "no more pages")
  end.

(** A remote that answers every call with a server error. *)
Definition server_down : Client := λ _ _, Throws TwitterServerError.

(** A remote that raises the project's [MaxRetries] on its first call and
    then serves one last page with a single tweet. *)
Definition raises_MaxRetries_once : Client := λ n _,
  match n with
  | O => Throws MaxRetries
  | _ => Responds (mkResponse (Some [[("id", VInt 1)]]) None None None None)
  end.

(** Two pages, one tweet each, nothing else. *)
Definition two_pages : Client := λ n _,
  match n with
  | O => Responds (mkResponse (Some [[("id", VInt 1)]]) None None None (Some "page2"))
  | _ => Responds (mkResponse (Some [[("id", VInt 2)]]) None None None None)
  end.

(** A remote with three pages of one tweet each. *)
Definition three_pages : list Response :=
  [ mkResponse (Some [[("id", VInt 1)]]) None None None (Some "page2");
    mkResponse (Some [[("id", VInt 2)]]) None None None (Some "page3");
    mkResponse (Some [[("id", VInt 3)]]) None None None None ].

(** A remote with two pages of one tweet each. *)
Definition two_page_list : list Response :=
  [ mkResponse (Some [[("id", VInt 1)]]) None None None (Some "page2");
    mkResponse (Some [[("id", VInt 2)]]) None None None None ].



(** One page: a tweet and its author. *)
Definition tweet_with_author : Client := λ _ _,
  Responds (mkResponse (Some [[("id", VInt 1); ("referenced_tweets", VNone)]]) None
              (Some [[("id", VInt 7); ("username", VStr "nasa")]]) None None).

(** ** Statements of the further properties *)

(** A link built from a record of the page and one of its references:
    the three fields [parent_id], [id], [type], in this order. *)
Definition link_from (tweets : list dict) (link : dict) : Prop :=
  ∃ tweet referenced refs ref parent_id id type,
    tweet ∈ tweets
    ∧ dict_get "referenced_tweets" tweet = Some referenced
    ∧ iterate referenced = Ok refs
    ∧ ref ∈ refs
    ∧ dict_get "id" tweet = Some parent_id
    ∧ getitem ref "id" = Ok id
    ∧ getitem ref "type" = Ok type
    ∧ link = [("parent_id", parent_id); ("id", id); ("type", type)].

(** The references a record lists ([[]] when the value is [None]). *)
Definition refs_of (tweet : dict) : list value :=
  match dict_get "referenced_tweets" tweet with
  | Some (VList refs) => refs
  | _ => []
  end.

(** A reference the parser can read: a dict with an [id] and a [type]. *)
Definition readable_ref (ref : value) : Prop :=
  ∃ d, ref = VDict d ∧ has_key "id" d ∧ has_key "type" d.

(** A record the parser can read: ['referenced_tweets'] is [None] or a
    list of readable references, and the record has an [id] if the list
    is not empty. *)
Definition readable_tweet (tweet : dict) : Prop :=
  dict_get "referenced_tweets" tweet = Some VNone
  ∨ ∃ refs, dict_get "referenced_tweets" tweet = Some (VList refs)
            ∧ Forall readable_ref refs
            ∧ (refs ≠ [] → has_key "id" tweet).

(** The remote answers, from its [k]-th call on, the requests a search
    session makes for the given batches: the first with the cursor
    [token], each later one with the cursor of the page before.  What it
    does on any other request is left open. *)
Fixpoint serves_chain (client : Client) (k : nat) (token : option string)
    (batches : list Z) (pages : list Response) : Prop :=
  match pages, batches with
  | [], _ => True
  | r :: pages, batch :: batches =>
      client k (mkRequest batch token) = Responds r
      ∧ serves_chain client (S k) (meta_next_token r) batches pages
  | _ :: _, [] => False
  end.

(** The exceptions of the project that both loops catch and pass over. *)
Definition passed_over (e : exn) : Prop :=
  e = EmptyTwitterResponseException ∨ e = MaxRetries.

(** A remote that answers only the two requests a search for 250 with
    batches of 100 should make, and fails on anything else. *)
Definition strict_two_pages : Client := λ n request,
  match n with
  | O =>
      if bool_decide (req_max_results request = 100 ∧ req_next_token request = None)
      then Responds (mkResponse (Some [[("id", VInt 1)]]) None None None (Some "page2"))
      else Throws (OtherError "unexpected request")
  | _ =>
      if bool_decide (req_max_results request = 100
                      ∧ req_next_token request = Some "page2")
      then Responds (mkResponse (Some [[("id", VInt 2)]]) None None None None)
      else Throws (OtherError "unexpected request")
  end.

(** A remote that has nothing: every call raises the project's
    [EmptyTwitterResponseException]. *)
Definition always_empty : Client := λ _ _, Throws EmptyTwitterResponseException.

(** A table as [TweetSearch.merge] returns them: rectangular, each column
    label once, hashable cells only. *)
Definition tidy (d : DataFrame) : Prop :=
  NoDup (columns d)
  ∧ Forall (λ row, length row = length (columns d)) (rows d)
  ∧ forallb (forallb pd.hashable) (rows d) = true.


(** Every row has one cell per column. *)
Definition rectangular (d : DataFrame) : Prop :=
  ∀ row, row ∈ rows d → length row = length (columns d).

(** The table has a column labelled [col], and every row holds [x] under
    each column so labelled. *)
Definition column_filled (col : string) (x : value) (d : DataFrame) : Prop :=
  col ∈ columns d
  ∧ rectangular d
  ∧ ∀ row i, row ∈ rows d → columns d !! i = Some col → row !! i = Some x.
(** * Properties *)

(** ** Batch planning *)

Example plan_12_5 : plan 12 5 = Ok [5; -3; 10].
Proof. reflexivity. Qed.

Example plan_16_15 : plan 16 15 = Ok [6; 10].
Proof. reflexivity. Qed.

Example plan_7_100 : plan 7 100 = Ok [10].
Proof. reflexivity. Qed.

Example plan_100_100 : plan 100 100 = Ok [90; 10].
Proof. reflexivity. Qed.

Lemma setitem_neg_last {A} (l : list A) (x y : A) :
  Py.setitem_neg (l ++ [x]) 1 y = Ok (l ++ [y]).
Proof.
  unfold Py.setitem_neg. rewrite length_app. simpl.
  rewrite decide_True by lia.
  replace (length l + 1 - 1)%nat with (length l + 0)%nat by lia.
  by rewrite insert_app_r.
Qed.

Lemma setitem_neg_penult {A} (l : list A) (x y z : A) :
  Py.setitem_neg (l ++ [x; z]) 2 y = Ok (l ++ [y; z]).
Proof.
  unfold Py.setitem_neg. rewrite length_app. simpl.
  rewrite decide_True by lia.
  replace (length l + 2 - 2)%nat with (length l + 0)%nat by lia.
  by rewrite insert_app_r.
Qed.

Lemma setitem_neg_nil {A} (k : nat) (x : A) : Py.setitem_neg [] k x = Raise IndexError.
Proof. unfold Py.setitem_neg. simpl. by rewrite decide_False by lia. Qed.

Lemma list_mul_succ {A} (x : A) (q : Z) :
  0 ≤ q → Py.list_mul x (q + 1) = replicate (Z.to_nat q) x ++ [x].
Proof.
  intros Hq. unfold Py.list_mul.
  replace (Z.to_nat (q + 1)) with (S (Z.to_nat q)) by lia.
  apply replicate_S_end.
Qed.

Lemma list_mul_nonpos {A} (x : A) (n : Z) : n ≤ 0 → Py.list_mul x n = [].
Proof. intros Hn. unfold Py.list_mul. by replace (Z.to_nat n) with O by lia. Qed.

Lemma sum_app (l k : list Z) : Py.sum (l ++ k) = Py.sum l + Py.sum k.
Proof. unfold Py.sum. induction l as [|x l IH]; simpl; lia. Qed.

Lemma sum_replicate (n : nat) (x : Z) : Py.sum (replicate n x) = Z.of_nat n * x.
Proof. unfold Py.sum. induction n as [|n IH]; simpl; lia. Qed.

Lemma plan_closed_form (total cap : Z) :
  0 ≤ total → 0 < cap → plan total cap = Ok (plan_shape total cap).
Proof.
  intros Ht Hc. unfold plan, plan_shape, Py.floordiv, Py.modulo.
  rewrite !decide_False by lia. simpl.
  assert (0 ≤ total `div` cap) as Hq by (apply Z.div_pos; lia).
  rewrite list_mul_succ by done.
  destruct (decide (total `mod` cap < 10)) as [Hr|Hr].
  - rewrite setitem_neg_last. simpl.
    destruct (decide (total `div` cap + 1 > 1)) as [Hq1|Hq1].
    + rewrite decide_True by lia.
      replace (Z.to_nat (total `div` cap)) with (S (Z.to_nat (total `div` cap - 1))) by lia.
      rewrite replicate_S_end, <- app_assoc. simpl.
      apply setitem_neg_penult.
    + rewrite decide_False by lia.
      by replace (Z.to_nat (total `div` cap)) with O by lia.
  - apply setitem_neg_last.
Qed.

Lemma plan_shape_sum (total cap : Z) :
  0 ≤ total → 0 < cap →
  Py.sum (plan_shape total cap) = if decide (total < 10 ∧ total < cap) then 10 else total.
Proof.
  intros Ht Hc. unfold plan_shape.
  pose proof (Z.div_mod total cap ltac:(lia)) as Hdm.
  pose proof (Z.mod_pos_bound total cap Hc) as Hm.
  assert (0 ≤ total `div` cap) as Hq by (apply Z.div_pos; lia).
  destruct (decide (total `mod` cap < 10)) as [Hr|Hr].
  - destruct (decide (1 ≤ total `div` cap)) as [Hq1|Hq1].
    + rewrite sum_app, sum_replicate. unfold Py.sum; simpl.
      rewrite decide_False by nia. nia.
    + assert (total `div` cap = 0) as Hq0 by lia.
      rewrite decide_True by nia. reflexivity.
  - rewrite sum_app, sum_replicate. unfold Py.sum; simpl.
    rewrite decide_False by nia. nia.
Qed.

(** C1, amended: for every total > 0 and every per-call cap >= 20, the
    plan is [[10]] when total < 10 and otherwise all its elements lie in
    [[10, cap]]. *)
Theorem plan_bounded_from_cap_20 (total cap : Z) :
  0 < total → 20 ≤ cap → plan_bounded total cap.
Proof.
  intros Ht Hc. unfold plan_bounded, min_final_batch.
  exists (plan_shape total cap). split; [apply plan_closed_form; lia|].
  unfold plan_shape.
  pose proof (Z.div_mod total cap ltac:(lia)) as Hdm.
  pose proof (Z.mod_pos_bound total cap ltac:(lia)) as Hm.
  assert (0 ≤ total `div` cap) as Hq by (apply Z.div_pos; lia).
  destruct (decide (total < 10)) as [Hlt|Hge].
  - rewrite Z.div_small, Z.mod_small by lia.
    rewrite decide_True by lia. by rewrite decide_False by lia.
  - destruct (decide (total `mod` cap < 10)) as [Hr|Hr].
    + destruct (decide (1 ≤ total `div` cap)) as [Hq1|Hq1].
      * apply Forall_app. split; [apply Forall_replicate; lia|].
        repeat constructor; lia.
      * nia.
    + apply Forall_app. split; [apply Forall_replicate; lia|].
      repeat constructor; lia.
Qed.

Lemma plan_bounded_from_cap_20_witness : plan_bounded 205 100.
Proof. apply (plan_bounded_from_cap_20 205 100); lia. Defined.

(** C1 as stated fails: with total 12 and cap 5 the plan is [[5; -3; 10]]. *)
Lemma plan_unbounded_12_5 : 0 < 12 ∧ 0 < 5 ∧ ¬ plan_bounded 12 5.
Proof.
  split; [lia|]. split; [lia|].
  intros (batches & Hplan & Hb). rewrite plan_12_5 in Hplan.
  injection Hplan as <-. simpl in Hb.
  apply Forall_cons_1 in Hb as [Hb _]. unfold min_final_batch in Hb. lia.
Qed.

(** The bound 20 is sharp: below it the plan for [total = cap] already
    breaks the promise. *)
Lemma plan_unbounded_below_20 (cap : Z) : 0 < cap < 20 → ¬ plan_bounded cap cap.
Proof.
  intros Hc (batches & Hplan & Hb).
  rewrite plan_closed_form in Hplan by lia. injection Hplan as <-.
  unfold plan_shape, min_final_batch in Hb.
  rewrite Z.div_same, Z.mod_same in Hb by lia. simpl in Hb.
  destruct (decide (cap < 10)); [discriminate|].
  apply Forall_cons_1 in Hb as [Hb _]. lia.
Qed.

(** C2: for every total > 0 and cap > 0 the plan exists and sums to at
    least total; the two worked examples of the specification hold. *)
Theorem plan_sum_covers_total (total cap : Z) :
  0 < total → 0 < cap →
  (∃ batches, plan total cap = Ok batches ∧ total ≤ Py.sum batches)
  ∧ plan 250 100 = Ok [100; 100; 50]
  ∧ plan 205 100 = Ok [100; 95; 10].
Proof.
  intros Ht Hc. split; [|split; reflexivity].
  exists (plan_shape total cap). split; [apply plan_closed_form; lia|].
  rewrite plan_shape_sum by lia. case_decide; lia.
Qed.

Lemma plan_sum_covers_total_witness :
  ∃ batches, plan 16 15 = Ok batches ∧ 16 ≤ Py.sum batches.
Proof. apply (plan_sum_covers_total 16 15); lia. Defined.

(** C9, amended: with a positive cap, a negative total makes the planning
    step fail (an [IndexError] from assigning into the empty batch list;
    there is no argument check), and a total of 0 yields the plan [[10]]. *)
Theorem plan_nonpositive_total (total cap : Z) :
  0 < cap →
  (total < 0 → plan total cap = Raise IndexError)
  ∧ (total = 0 → plan total cap = Ok [10]).
Proof.
  intros Hc. split.
  - intros Ht. unfold plan, Py.floordiv, Py.modulo.
    rewrite !decide_False by lia. simpl.
    assert (total `div` cap < 0) as Hq by (apply Z.div_lt_upper_bound; lia).
    rewrite list_mul_nonpos by lia.
    case_decide; by rewrite setitem_neg_nil.
  - intros ->. rewrite plan_closed_form by lia.
    unfold plan_shape. rewrite Z.div_0_l, Z.mod_0_l by lia. reflexivity.
Qed.

Lemma plan_nonpositive_total_witness :
  plan (-5) 100 = Raise IndexError ∧ plan 0 100 = Ok [10].
Proof.
  destruct (plan_nonpositive_total (-5) 100 ltac:(lia)) as [Hneg _].
  destruct (plan_nonpositive_total 0 100 ltac:(lia)) as [_ Hzero].
  split; [apply Hneg; lia | apply Hzero; reflexivity].
Defined.

(** C9 as stated fails: a total of 0 is planned, not refused. *)
Lemma plan_accepts_total_0 : 0 ≤ 0 ∧ ¬ plan_fails 0 100.
Proof. split; [lia|]. intros [e He]. discriminate He. Qed.

(** ** The result monad *)

Lemma bind_Ok {A B} (m : result A) (f : A → result B) (b : B) :
  m ≫= f = Ok b → ∃ a, m = Ok a ∧ f a = Ok b.
Proof. destruct m as [a|e]; [eauto | discriminate]. Qed.

Lemma fmap_Ok {A B} (f : A → B) (m : result A) (b : B) :
  f <$> m = Ok b → ∃ a, m = Ok a ∧ b = f a.
Proof. destruct m as [a|e]; [|discriminate]. intros [= <-]. eauto. Qed.

Ltac invert_bind H :=
  let a := fresh "a" in
  let Ha := fresh "H" a in
  apply bind_Ok in H as (a & Ha & H).

(** ** Link parsing *)

Example parse_links_example :
  parse_tweet_links
    [ [("id", VInt 1); ("referenced_tweets", VNone)];
      [("id", VInt 2);
       ("referenced_tweets",
        VList [VDict [("type", VStr "quoted"); ("id", VInt 9)];
               VDict [("type", VStr "replied_to"); ("id", VInt 1)]])] ]
  = Ok [ [("parent_id", VInt 2); ("id", VInt 9); ("type", VStr "quoted")];
         [("parent_id", VInt 2); ("id", VInt 1); ("type", VStr "replied_to")] ].
Proof. reflexivity. Qed.

Example parse_links_missing_key :
  parse_tweet_links [ [("id", VInt 1); ("text", VStr "hello")] ] = Raise KeyError.
Proof. reflexivity. Qed.

Lemma new_link_parent (tweet : dict) (ref : value) (link : dict) :
  new_link tweet ref = Ok link →
  ∃ parent_id, dict_get "id" tweet = Some parent_id
               ∧ dict_get "parent_id" link = Some parent_id.
Proof.
  unfold new_link, subscript. intros Hl.
  destruct (dict_get "id" tweet) as [parent_id|]; [|discriminate]. simpl in Hl.
  invert_bind Hl. invert_bind Hl. injection Hl as <-. by exists parent_id.
Qed.

Lemma parse_refs_Ok (tweet : dict) (refs : list value) (acc out : list dict) :
  parse_refs tweet refs acc = Ok out →
  ∃ new, out = acc ++ new ∧ length new = length refs
         ∧ Forall (λ link, ∃ parent_id, dict_get "id" tweet = Some parent_id
                           ∧ dict_get "parent_id" link = Some parent_id) new.
Proof.
  revert acc. induction refs as [|ref refs IH]; intros acc Hp; simpl in Hp.
  - injection Hp as <-. exists []. by rewrite app_nil_r.
  - invert_bind Hp. apply IH in Hp as (new & -> & Hlen & Hall).
    exists (a :: new). rewrite <- app_assoc. split; [done|].
    split; [simpl; lia|]. constructor; [by eapply new_link_parent | done].
Qed.

Lemma parse_tweet_Ok (tweet : dict) (acc out : list dict) :
  parse_tweet tweet acc = Ok out →
  has_key "referenced_tweets" tweet
  ∧ ∃ new, out = acc ++ new
           ∧ Forall (λ link, ∃ parent_id, dict_get "id" tweet = Some parent_id
                             ∧ dict_get "parent_id" link = Some parent_id) new.
Proof.
  unfold parse_tweet, subscript, has_key. intros Hp.
  destruct (dict_get "referenced_tweets" tweet) as [rt|]; [|discriminate].
  split; [by eexists|]. simpl in Hp.
  assert (rt = VNone ∨
          (refs ← iterate rt; parse_refs tweet refs acc) = Ok out) as [->|Hp'].
  { destruct rt; auto. }
  - injection Hp as <-. exists []. by rewrite app_nil_r.
  - invert_bind Hp'. apply parse_refs_Ok in Hp' as (new & -> & _ & Hall). eauto.
Qed.

Lemma parse_tweets_Ok (tweets : list dict) (acc out : list dict) :
  parse_tweets tweets acc = Ok out →
  Forall (has_key "referenced_tweets") tweets
  ∧ ∃ new, out = acc ++ new ∧ Forall (parent_in_page tweets) new.
Proof.
  revert acc. induction tweets as [|tweet tweets IH]; intros acc Hp; simpl in Hp.
  - injection Hp as <-. split; [constructor|]. exists []. by rewrite app_nil_r.
  - invert_bind Hp. apply parse_tweet_Ok in Ha as (Hkey & new1 & -> & Hnew1).
    apply IH in Hp as (Hkeys & new2 & -> & Hnew2).
    split; [by constructor|]. exists (new1 ++ new2).
    rewrite <- app_assoc. split; [done|]. apply Forall_app. split.
    + eapply Forall_impl; [exact Hnew1|]. intros link (pid & Hid & Hpid).
      exists tweet, pid. split; [left|done].
    + eapply Forall_impl; [exact Hnew2|]. intros link (tw & pid & Hin & Hid & Hpid).
      exists tw, pid. split; [by right|done].
Qed.

Lemma parse_tweet_links_Ok (tweets : list dict) (links : list dict) :
  parse_tweet_links tweets = Ok links →
  Forall (has_key "referenced_tweets") tweets ∧ Forall (parent_in_page tweets) links.
Proof.
  intros Hp. apply parse_tweets_Ok in Hp as (Hkeys & new & -> & Hnew). by split.
Qed.

Lemma parse_tweets_None (tweets : list dict) (acc : list dict) :
  Forall (λ tweet, dict_get "referenced_tweets" tweet = Some VNone) tweets →
  parse_tweets tweets acc = Ok acc.
Proof.
  induction 1 as [|tweet tweets Hnone _ IH]; [done|].
  simpl. unfold parse_tweet, subscript. rewrite Hnone. simpl. exact IH.
Qed.

(** The first record without the key stops the parser with [KeyError],
    whatever follows it. *)
Lemma parse_tweets_KeyError (before after : list dict) (tweet : dict) (acc acc' : list dict) :
  parse_tweets before acc = Ok acc' →
  ¬ has_key "referenced_tweets" tweet →
  parse_tweets (before ++ tweet :: after) acc = Raise KeyError.
Proof.
  revert acc. induction before as [|t before IH]; intros acc Hb Hkey; simpl in *.
  - unfold parse_tweet, subscript, has_key in *.
    destruct (dict_get "referenced_tweets" tweet); [|done].
    exfalso. apply Hkey. by eexists.
  - invert_bind Hb. rewrite Ha. simpl. by apply IH.
Qed.

(** C10: the link parser indexes every record with ['referenced_tweets'].
    If it returns, every record had the key; a record without it makes
    the call raise (a [KeyError] when the records before it parse), and
    records whose value for the key is [None] are fine and give no links. *)
Theorem parse_tweet_links_requires_key (tweets : list dict) :
  (∀ links, parse_tweet_links tweets = Ok links →
            Forall (has_key "referenced_tweets") tweets)
  ∧ (Exists (λ tweet, ¬ has_key "referenced_tweets" tweet) tweets →
     ∃ e, parse_tweet_links tweets = Raise e)
  ∧ (∀ before tweet after parsed,
       tweets = before ++ tweet :: after →
       parse_tweet_links before = Ok parsed →
       ¬ has_key "referenced_tweets" tweet →
       parse_tweet_links tweets = Raise KeyError)
  ∧ (Forall (λ tweet, dict_get "referenced_tweets" tweet = Some VNone) tweets →
     parse_tweet_links tweets = Ok []).
Proof.
  split; [|split; [|split]].
  - intros links Hp. by apply parse_tweet_links_Ok in Hp as [? _].
  - intros Hex. destruct (parse_tweet_links tweets) as [links|e] eqn:Hp; [|eauto].
    apply parse_tweet_links_Ok in Hp as [Hkeys _].
    apply Exists_exists in Hex as (tweet & Hin & Hno).
    rewrite Forall_forall in Hkeys. exfalso. by apply Hno, Hkeys.
  - intros before tweet after parsed -> Hb Hno.
    by eapply parse_tweets_KeyError.
  - apply parse_tweets_None.
Qed.

Lemma parse_tweet_links_requires_key_witness :
  parse_tweet_links
    [ [("id", VInt 1); ("referenced_tweets", VNone)]; [("id", VInt 2)];
      [("id", VInt 3); ("referenced_tweets", VNone)] ] = Raise KeyError.
Proof.
  apply (parse_tweet_links_requires_key _)
    with (before := [ [("id", VInt 1); ("referenced_tweets", VNone)] ])
         (tweet := [("id", VInt 2)])
         (after := [ [("id", VInt 3); ("referenced_tweets", VNone)] ])
         (parsed := []).
  - reflexivity.
  - reflexivity.
  - intros [v Hv]. discriminate Hv.
Defined.

(** ** Bounded retry *)

Lemma retry_loop_exhausted (client : Client) (request : Request) (left calls : nat) :
  (∀ n, (calls ≤ n < calls + left)%nat → client n request = Throws TwitterServerError) →
  retry_loop client request left calls = (Ok None, (calls + left)%nat).
Proof.
  revert calls. induction left as [|left IH]; intros calls Hdown; simpl.
  - by rewrite Nat.add_0_r.
  - rewrite Hdown by lia. rewrite IH by (intros; apply Hdown; lia).
    f_equal. lia.
Qed.

(** The method never raises [MaxRetries]: what it raises, the client
    raised, and that is never the server error it retries on. *)
Lemma retry_loop_Raise (client : Client) (request : Request) (left calls : nat)
    (e : exn) (calls' : nat) :
  retry_loop client request left calls = (Raise e, calls') →
  e ≠ TwitterServerError ∧ ∃ n, client n request = Throws e.
Proof.
  revert calls. induction left as [|left IH]; intros calls Hr; simpl in Hr; [done|].
  destruct (client calls request) as [response|e0] eqn:Hc; [done|].
  destruct e0; try (injection Hr as <- <-; split; [done|by eexists]).
  by eapply IH.
Qed.

(** Five failed attempts: the session is left through the attribute
    access on the [None] that [search_tweets] returned. *)
Lemma exhausted_retries_abort `{Twalc} (client : Client) (fields : list string)
    (dir fmt : string) (batch : Z) (rest : list Z) (st : Session) :
  (∀ n, (calls st ≤ n < calls st + 5)%nat →
        client n (mkRequest batch (next_token st)) = Throws TwitterServerError) →
  TweetSearch.loop client fields dir fmt (batch :: rest) st
  = (Aborted AttributeError, fetched (calls st + 5) st).
Proof.
  intros Hdown. simpl. unfold search_tweets, max_retries.
  by rewrite retry_loop_exhausted.
Qed.

(** What the [except exceptions.MaxRetries] handler does when the
    exception does arrive: the batch is skipped, the cursor kept. *)
Lemma MaxRetries_skips_batch `{Twalc} (client : Client) (fields : list string)
    (dir fmt : string) (batch : Z) (rest : list Z) (st : Session) :
  client (calls st) (mkRequest batch (next_token st)) = Throws MaxRetries →
  TweetSearch.loop client fields dir fmt (batch :: rest) st
  = TweetSearch.loop client fields dir fmt rest (fetched (S (calls st)) st)
  ∧ next_token (fetched (S (calls st)) st) = next_token st.
Proof.
  intros Hc. split; [|done]. simpl. unfold search_tweets, max_retries. simpl.
  by rewrite Hc.
Qed.

(** C3, on the code: against a remote that always answers with a server
    error, [search_tweets] and [get_tweets] call it 5 times and then
    return [None] (no [MaxRetries] is raised), and both [pull] methods are
    left by an [AttributeError] after that single fetch cycle, the other
    planned batches never tried. *)
Theorem server_down_aborts_session :
  search_tweets server_down 0 100 None = (Ok None, 5%nat)
  ∧ get_tweets server_down 0 None 100 = (Ok None, 5%nat)
  ∧ plan 250 100 = Ok [100; 100; 50]
  ∧ @TweetSearch.pull plain_twalc server_down [] "out" "csv" ∅ 250 100
    = (Aborted AttributeError, fetched 5 (start ∅))
  ∧ @Timeline.pull plain_twalc server_down [] "nasa" "out" "csv" false "handle" 100
      (Ok 11348282) only_out ∅ 3
    = (Some (Aborted AttributeError, fetched 5 (start ∅)),
       <["out/nasa" := Directory]> only_out).
Proof. repeat split; vm_compute; reflexivity. Qed.

Example MaxRetries_handler_continues :
  fst (@TweetSearch.pull plain_twalc raises_MaxRetries_once [] "out" "csv" ∅ 250 100) = Done
  ∧ fetches (snd (@TweetSearch.pull plain_twalc raises_MaxRetries_once [] "out" "csv" ∅ 250 100)) = 2%nat.
Proof. split; vm_compute; reflexivity. Qed.

(** ** Tables *)

Lemma elem_of_uniq {A} `{EqDecision A} (l : list A) (x : A) : x ∈ uniq l ↔ x ∈ l.
Proof.
  induction l as [|y l IH]; simpl; [done|].
  rewrite !elem_of_cons, list_elem_of_filter, IH.
  destruct (decide (x = y)); tauto.
Qed.

Lemma NoDup_uniq {A} `{EqDecision A} (l : list A) : NoDup (uniq l).
Proof.
  induction l as [|y l IH]; simpl; [constructor|].
  apply NoDup_cons. split.
  - rewrite list_elem_of_filter. tauto.
  - by apply NoDup_filter.
Qed.

Lemma filter_ne_notin {A} `{EqDecision A} (l : list A) (x : A) :
  x ∉ l → filter (λ y, y ≠ x) l = l.
Proof.
  induction l as [|y l IH]; [done|]. intros [Hxy Hx]%not_elem_of_cons.
  rewrite filter_cons, decide_True by congruence. f_equal. by apply IH.
Qed.

Lemma uniq_NoDup_id {A} `{EqDecision A} (l : list A) : NoDup l → uniq l = l.
Proof.
  induction 1 as [|x l Hx _ IH]; simpl; [done|].
  rewrite IH. f_equal. by apply filter_ne_notin.
Qed.

Lemma drop_duplicates_Ok (df d : DataFrame) :
  pd.drop_duplicates df = Ok d →
  columns d = columns df ∧ rows d = uniq (rows df) ∧ NoDup (rows d).
Proof.
  unfold pd.drop_duplicates. case_match; [|discriminate].
  intros [= <-]. simpl. split_and!; [done..|apply NoDup_uniq].
Qed.





(** Rows are appended in order: the old rows first, then the page's. *)
Lemma rows_concat_axis0 (a b : DataFrame) :
  rows (pd.concat_axis0 a b)
  = pd.reindex (columns (pd.concat_axis0 a b)) a
    ++ pd.reindex (columns (pd.concat_axis0 a b)) b.
Proof. reflexivity. Qed.

Lemma merge_if_Ok (b : bool) (df df' : option DataFrame) (new : DataFrame) :
  TweetSearch.merge_if b df new = Ok df' →
  (b = false ∧ df' = df)
  ∨ (b = true ∧ ∃ d, df' = Some d
       ∧ pd.drop_duplicates (concat_or_new pd.concat_axis0 df new) = Ok d).
Proof.
  unfold TweetSearch.merge_if, TweetSearch.merge. destruct b; [|intros [= <-]; by left].
  intros Hm. apply fmap_Ok in Hm as (d & Hd & ->). right. eauto.
Qed.


(** ** One page of a search session *)

(** What a statement of the body leaves behind. *)
Lemma seq_None (first second : stmt) (st st' : Session) :
  (first ;;; second) st = (None, st') →
  ∃ s, first st = (None, s) ∧ second s = (None, st').
Proof.
  unfold seq. destruct (first st) as [[e|] s] eqn:Hf; [done|]. intros Hs. by exists s.
Qed.

Lemma seq_Some (first second : stmt) (st st' : Session) (e : exn) :
  (first ;;; second) st = (Some e, st') →
  first st = (Some e, st') ∨ ∃ s, first st = (None, s) ∧ second s = (Some e, st').
Proof.
  unfold seq. destruct (first st) as [[e0|] s] eqn:Hf; [by left|]. intros Hs.
  right. by exists s.
Qed.

Lemma merge_into_None (b : bool) (get : Session → option DataFrame)
    (set : option DataFrame → Session → Session) (new : DataFrame) (st st' : Session) :
  TweetSearch.merge_into b get set new st = (None, st') →
  (b = false ∧ st' = st)
  ∨ (b = true ∧ ∃ d, TweetSearch.merge (get st) new = Ok d ∧ st' = set (Some d) st).
Proof.
  unfold TweetSearch.merge_into. destruct b; [|intros [= <-]; by left].
  destruct (TweetSearch.merge (get st) new) as [d|e]; [|done].
  intros [= <-]. right. split; [done|]. by exists d.
Qed.

Lemma merge_into_Some (b : bool) (get : Session → option DataFrame)
    (set : option DataFrame → Session → Session) (new : DataFrame) (st st' : Session)
    (e : exn) :
  TweetSearch.merge_into b get set new st = (Some e, st') →
  b = true ∧ TweetSearch.merge (get st) new = Raise e
  ∧ st' = set (Some (concat_or_new pd.concat_axis0 (get st) new)) st.
Proof.
  unfold TweetSearch.merge_into. destruct b; [|done].
  destruct (TweetSearch.merge (get st) new) as [d|e0]; [done|]. by intros [= <- <-].
Qed.

(** The places where the body of a search iteration can raise: a
    merge, after any of the merges before it, or the saving block. *)
Ltac body_raised Hb :=
  lazymatch type of Hb with
  | seq (TweetSearch.merge_into _ _ _ _) _ _ = (Some _, _) =>
      let s := fresh "s" in let Hn := fresh "Hn" in
      let B := fresh "B" in let M := fresh "M" in let d := fresh "d" in
      apply seq_Some in Hb as [Hb|(s & Hn & Hb)];
      [ apply merge_into_Some in Hb as (B & M & ->)
      | apply merge_into_None in Hn as [[B ->]|(B & d & M & ->)]; body_raised Hb ]
  | seq (TweetSearch.saving _ _ _ _ _ _) _ _ = (Some _, _) =>
      let s := fresh "s" in let Hn := fresh "Hn" in
      apply seq_Some in Hb as [Hb|(s & Hn & Hb)]; [|discriminate Hb]
  | seq _ _ _ = (Some _, _) =>
      let s := fresh "s" in let Hn := fresh "Hn" in
      apply seq_Some in Hb as [Hb|(s & Hn & Hb)];
      [discriminate Hb|injection Hn as <-; body_raised Hb]
  end.

Section search_page.
Context `{Twalc}.
Variable fields : list string.
Variables dir fmt : string.

Lemma search_page_body_falsy (st : Session) (r : Response) :
  truthy (data r) = false → TweetSearch.page_body fields dir fmt st r = (None, st).
Proof. unfold TweetSearch.page_body. by intros ->. Qed.

Lemma search_page_falsy (st : Session) (r : Response) :
  truthy (data r) = false → TweetSearch.page fields dir fmt st r = Ok st.
Proof. intros Ht. unfold TweetSearch.page. by rewrite search_page_body_falsy. Qed.

(** The iteration returns what its body leaves when nothing raises, and
    raises what its body raises. *)
Lemma search_page_body_None (st st' : Session) (r : Response) :
  TweetSearch.page_body fields dir fmt st r = (None, st') ↔
  TweetSearch.page fields dir fmt st r = Ok st'.
Proof.
  unfold TweetSearch.page.
  destruct (TweetSearch.page_body fields dir fmt st r) as [[e|] s]; split; try done.
  - by intros [= ->].
  - by intros [= ->].
Qed.

Lemma search_page_body_Some (st st' : Session) (r : Response) (e : exn) :
  TweetSearch.page_body fields dir fmt st r = (Some e, st') →
  TweetSearch.page fields dir fmt st r = Raise e.
Proof. unfold TweetSearch.page. by intros ->. Qed.

Lemma search_page_Ok (st st' : Session) (r : Response) :
  TweetSearch.page fields dir fmt st r = Ok st' →
  truthy (data r) = true →
  ∃ links,
    (if has_refs fields then parse_tweet_links (items (data r)) else Ok []) = Ok links
    ∧ TweetSearch.merge_if (truthy (includes_tweets r)) (df_refs st)
        (pd.DataFrame (Tweet_to_dict <$> items (includes_tweets r))) = Ok (df_refs st')
    ∧ TweetSearch.merge_if (truthy (includes_users r)) (df_users st)
        (pd.DataFrame (User_to_dict <$> items (includes_users r))) = Ok (df_users st')
    ∧ TweetSearch.merge_if (truthy (includes_media r)) (df_media st)
        (pd.DataFrame (Media_to_dict <$> items (includes_media r))) = Ok (df_media st')
    ∧ TweetSearch.merge_if (has_refs fields) (df_links st) (pd.DataFrame links)
      = Ok (df_links st')
    ∧ df_tweets st'
      = Some (concat_or_new pd.concat_axis0 (df_tweets st)
                (pd.DataFrame (Tweet_to_dict <$> items (data r))))
    ∧ TweetSearch.save fields dir fmt (truthy (includes_tweets r))
        (truthy (includes_users r)) (truthy (includes_media r))
        (df_refs st') (df_users st') (df_media st') (df_links st') (df_tweets st')
        (out st) = Ok (out st')
    ∧ num_collected st' = (num_collected st + length (items (data r)))%nat
    ∧ next_token st' = next_token st
    ∧ calls st' = calls st
    ∧ fetches st' = fetches st.
Proof.
  intros Hp%search_page_body_None Ht. unfold TweetSearch.page_body in Hp.
  rewrite Ht in Hp.
  destruct (if has_refs fields then parse_tweet_links (items (data r)) else Ok [])
    as [links|e] eqn:Hlinks; [|done].
  exists links. split; [done|].
  apply seq_None in Hp as (s1 & H1 & Hp). apply seq_None in Hp as (s2 & H2 & Hp).
  apply seq_None in Hp as (s3 & H3 & Hp). apply seq_None in Hp as (s4 & H4 & Hp).
  apply seq_None in Hp as (s5 & H5 & Hp). apply seq_None in Hp as (s6 & H6 & Hp).
  injection Hp as <-. injection H5 as <-.
  unfold TweetSearch.saving in H6.
  destruct (TweetSearch.save fields dir fmt _ _ _ _ _ _ _ _ _) as [fs|e] eqn:Hsave in H6;
    [|done].
  injection H6 as <-. rewrite length_fmap.
  unfold TweetSearch.merge_if.
  apply merge_into_None in H1 as [[B1 ->]|(B1 & d1 & M1 & ->)];
    apply merge_into_None in H2 as [[B2 ->]|(B2 & d2 & M2 & ->)];
    apply merge_into_None in H3 as [[B3 ->]|(B3 & d3 & M3 & ->)];
    apply merge_into_None in H4 as [[B4 ->]|(B4 & d4 & M4 & ->)];
    simpl in *; rewrite B1, B2, B3 in Hsave |- *; rewrite B4, ?M1, ?M2, ?M3, ?M4;
    simpl; by split_and!.
Qed.

(** Whatever the page holds, only the cursor-independent fields move. *)
Lemma search_page_counters (st st' : Session) (r : Response) :
  TweetSearch.page fields dir fmt st r = Ok st' →
  next_token st' = next_token st ∧ calls st' = calls st ∧ fetches st' = fetches st.
Proof.
  intros Hp. destruct (truthy (data r)) eqn:Ht.
  - apply search_page_Ok in Hp as (links & Hp); [|done]. tauto.
  - rewrite search_page_falsy in Hp by done. by injection Hp as <-.
Qed.



Lemma merge_Raise (df : option DataFrame) (new : DataFrame) (e : exn) :
  TweetSearch.merge df new = Raise e → e = TypeError.
Proof.
  unfold TweetSearch.merge, pd.drop_duplicates. case_match; [done|]. by intros [= <-].
Qed.


(** When the body raises, the cursor, the counter, the files and the two
    counters of the proofs are as they were before the page; the tables
    are as the statements before the raise left them. *)
Lemma search_page_raised (st st' : Session) (r : Response) (e : exn) :
  TweetSearch.page_body fields dir fmt st r = (Some e, st') →
  next_token st' = next_token st ∧ num_collected st' = num_collected st
  ∧ out st' = out st ∧ calls st' = calls st ∧ fetches st' = fetches st.
Proof.
  intros Hb. unfold TweetSearch.page_body in Hb.
  destruct (truthy (data r)); [|done].
  destruct (if has_refs fields then parse_tweet_links (items (data r)) else Ok [])
    as [links|e0]; [|by injection Hb as <- <-].
  body_raised Hb; try done.
  all: unfold TweetSearch.saving in Hb;
    destruct (TweetSearch.save _ _ _ _ _ _ _ _ _ _ _ _) in Hb; [done|];
    by injection Hb as <- <-.
Qed.

(** No statement of the body touches the link table when the links
    field was not requested. *)
Lemma search_page_raised_links (st st' : Session) (r : Response) (e : exn) :
  TweetSearch.page_body fields dir fmt st r = (Some e, st') →
  has_refs fields = false → df_links st' = df_links st.
Proof.
  intros Hb Hno. unfold TweetSearch.page_body in Hb.
  destruct (truthy (data r)); [|done].
  destruct (if has_refs fields then parse_tweet_links (items (data r)) else Ok [])
    as [links|e0]; [|by injection Hb as <- <-].
  body_raised Hb; try done; try congruence.
  all: unfold TweetSearch.saving in Hb;
    destruct (TweetSearch.save _ _ _ _ _ _ _ _ _ _ _ _) in Hb; [done|];
    by injection Hb as <- <-.
Qed.



End search_page.

(** ** The search loop *)

Section search_loop.
Context `{Twalc}.
Variable client : Client.
Variable fields : list string.
Variables dir fmt : string.

(** How a search session can end: normally, in a state that has what
    every step of the loop keeps ([P]); or by an exception, raised by the
    fetch (the state is then as the loop keeps it) or by the body of an
    iteration (the state is then what the body left). *)
Lemma search_loop_ends (P : Session → Prop) (Q : exn → Session → Prop) :
  (∀ st n, P st → P (fetched n st)) →
  (∀ st token, P st → P (advance token st)) →
  (∀ st r st', P st → TweetSearch.page fields dir fmt st r = Ok st' → P st') →
  (∀ st e, P st → Q e st) →
  (∀ st r e st', P st →
     TweetSearch.page_body fields dir fmt st r = (Some e, st') → Q e st') →
  ∀ batches st, P st →
    match TweetSearch.loop client fields dir fmt batches st with
    | (Done, st') => P st'
    | (Aborted e, st') => Q e st'
    end.
Proof.
  intros Hfetched Hadvance Hpage Hout Hraised.
  induction batches as [|batch rest IH]; intros st HP; simpl; [done|].
  destruct (search_tweets client (calls st) batch (next_token st)) as [r calls'].
  pose proof (Hfetched st calls' HP) as HP'.
  destruct r as [[response|]|e].
  - destruct (TweetSearch.page_body fields dir fmt (fetched calls' st) response)
      as [[e|] st'] eqn:Hb; [by eapply Hraised|].
    apply search_page_body_None in Hb.
    pose proof (Hadvance _ (meta_next_token response) (Hpage _ _ _ HP' Hb)) as HP''.
    destruct (meta_next_token response); [by apply IH | done].
  - by apply Hout.
  - destruct e; try (by apply Hout); by apply IH.
Qed.

Lemma search_pull_ends (P : Session → Prop) (Q : exn → Session → Prop)
    (fs : files) (total cap : Z) :
  (∀ st n, P st → P (fetched n st)) →
  (∀ st token, P st → P (advance token st)) →
  (∀ st r st', P st → TweetSearch.page fields dir fmt st r = Ok st' → P st') →
  (∀ st e, P st → Q e st) →
  (∀ st r e st', P st →
     TweetSearch.page_body fields dir fmt st r = (Some e, st') → Q e st') →
  P (start fs) →
  match TweetSearch.pull client fields dir fmt fs total cap with
  | (Done, st') => P st'
  | (Aborted e, st') => Q e st'
  end.
Proof.
  intros Hfetched Hadvance Hpage Hout Hraised Hstart. unfold TweetSearch.pull.
  destruct (plan total cap) as [batches|e]; [|by apply Hout].
  by apply search_loop_ends.
Qed.

(** A property of the session that no step of the loop breaks, and no
    iteration that raises, holds of the state [pull] ends in, however it
    ends. *)
Lemma search_pull_invariant (P : Session → Prop) (fs : files) (total cap : Z) :
  (∀ st n, P st → P (fetched n st)) →
  (∀ st token, P st → P (advance token st)) →
  (∀ st r st', P st → TweetSearch.page fields dir fmt st r = Ok st' → P st') →
  (∀ st r e st', P st →
     TweetSearch.page_body fields dir fmt st r = (Some e, st') → P st') →
  P (start fs) →
  P (TweetSearch.pull client fields dir fmt fs total cap).2.
Proof.
  intros Hfetched Hadvance Hpage Hraised Hstart.
  pose proof (search_pull_ends P (λ _, P) fs total cap Hfetched Hadvance Hpage
                ltac:(done) Hraised Hstart) as Hend.
  by destruct (TweetSearch.pull client fields dir fmt fs total cap) as [[|e] st'].
Qed.

End search_loop.

(** ** Deduplication of the secondary tables *)

Lemma dict_get_zip_fmap (f : string → value) (cols : list string) (c : string) :
  dict_get c (zip cols (f <$> cols)) = if decide (c ∈ cols) then Some (f c) else None.
Proof.
  induction cols as [|c' cols IH].
  - by destruct (decide (c ∈ [])) as [?%elem_of_nil|].
  - destruct (decide (c ∈ c' :: cols)) as [Hin|Hin]; simpl;
      destruct (decide (c = c')) as [->|Hne].
    + done.
    + etrans; [exact IH|].
      apply elem_of_cons in Hin as [?|Hin]; [done|]. by rewrite decide_True.
    + exfalso. apply Hin. left.
    + etrans; [exact IH|].
      rewrite decide_False; [done|]. intros ?. apply Hin. by right.
Qed.

Lemma dict_get_None_keys (record : dict) (c : string) :
  c ∉ record.*1 → dict_get c record = None.
Proof.
  induction record as [|[k v] record IH]; simpl; [done|].
  intros [Hne Hin]%not_elem_of_cons. rewrite decide_False by done. by apply IH.
Qed.

Lemma keys_in_columns (records : list dict) (record : dict) (c : string) :
  record ∈ records → c ∈ record.*1 → c ∈ columns (pd.DataFrame records).
Proof.
  intros Hr Hc. unfold pd.DataFrame. simpl. rewrite elem_of_uniq.
  apply list_elem_of_join. exists (record.*1). split; [done|].
  apply list_elem_of_fmap. by exists record.
Qed.

(** Re-aligning a fresh table to other columns gives each record the row
    it would have had in those columns. *)
Lemma reindex_DataFrame (cols : list string) (records : list dict) :
  pd.reindex cols (pd.DataFrame records)
  = (λ record, cell record <$> cols) <$> records.
Proof.
  unfold pd.reindex. 
  change (rows (pd.DataFrame records))
    with ((λ r, cell r <$> columns (pd.DataFrame records)) <$> records).
  rewrite <- list_fmap_compose. apply list_fmap_ext.
  intros i record Hin%list_elem_of_lookup_2. simpl. apply list_fmap_ext; intros _ c _.
  unfold cell at 1. rewrite dict_get_zip_fmap.
  case_decide as Hc; [done|].
  unfold cell. rewrite dict_get_None_keys; [done|].
  intros Hk. apply Hc. by apply (keys_in_columns records record).
Qed.

(** A record of the page is in the merged table, as one row. *)
Lemma merge_holds_record (df : option DataFrame) (records : list dict)
    (record : dict) (d : DataFrame) :
  TweetSearch.merge df (pd.DataFrame records) = Ok d →
  record ∈ records →
  row_of record d ∈ rows d ∧ NoDup (rows d).
Proof.
  unfold TweetSearch.merge. intros (Hcols & Hrows & Hnodup)%drop_duplicates_Ok Hin.
  split; [|done]. unfold row_of. rewrite Hrows, Hcols, elem_of_uniq.
  destruct df as [old|]; simpl.
  - apply elem_of_app. right. rewrite reindex_DataFrame.
    apply list_elem_of_fmap. by exists record.
  - apply list_elem_of_fmap. by exists record.
Qed.

Lemma has_refs_true (fields : list string) :
  has_refs fields = true ↔ "referenced_tweets" ∈ fields.
Proof. unfold has_refs. apply bool_decide_eq_true. Qed.

Lemma has_refs_false (fields : list string) :
  has_refs fields = false ↔ "referenced_tweets" ∉ fields.
Proof. unfold has_refs. apply bool_decide_eq_false. Qed.

Lemma elem_items_truthy {A} (o : option (list A)) (x : A) :
  x ∈ items o → truthy o = true.
Proof. destruct o as [[|??]|]; simpl; [by intros ?%elem_of_nil|done|by intros ?%elem_of_nil]. Qed.

Lemma filter_all {A} (P : A → Prop) `{!∀ x, Decision (P x)} (l : list A) :
  (∀ y, y ∈ l → P y) → filter P l = l.
Proof.
  induction l as [|x l IH]; intros Hall; [done|].
  rewrite filter_cons_True by (apply Hall; left). f_equal.
  apply IH. intros y Hy. apply Hall. by right.
Qed.

Lemma filter_none {A} (P : A → Prop) `{!∀ x, Decision (P x)} (l : list A) :
  (∀ y, y ∈ l → ¬ P y) → filter P l = [].
Proof.
  induction l as [|x l IH]; intros Hnone; [done|].
  rewrite filter_cons_False by (apply Hnone; left).
  apply IH. intros y Hy. apply Hnone. by right.
Qed.

Lemma uniq_app {A} `{EqDecision A} (a b : list A) :
  uniq (a ++ b) = uniq a ++ filter (λ y, y ∉ a) (uniq b).
Proof.
  induction a as [|x a IH]; simpl.
  - symmetry. apply filter_all. intros y _. apply not_elem_of_nil.
  - rewrite IH, filter_app. f_equal. f_equal.
    rewrite list_filter_filter. apply list_filter_iff.
    intros y. rewrite not_elem_of_cons. tauto.
Qed.

Lemma uniq_app_subseteq {A} `{EqDecision A} (a b : list A) :
  NoDup a → b ⊆ a → uniq (a ++ b) = a.
Proof.
  intros Ha Hb. rewrite uniq_app, uniq_NoDup_id by done.
  rewrite filter_none, app_nil_r; [done|].
  intros y Hy Hno. apply Hno, Hb. by apply elem_of_uniq.
Qed.

Lemma cell_zip_row (cols : list string) (row : list value) :
  NoDup cols → length row = length cols → cell (zip cols row) <$> cols = row.
Proof.
  intros Hcols. revert row. induction Hcols as [|c cols Hc _ IH]; intros row Hlen.
  - by destruct row.
  - destruct row as [|v row]; [done|]. simpl in Hlen.
    rewrite fmap_cons. f_equal.
    + unfold cell. simpl. by rewrite decide_True.
    + rewrite <- (IH row) at 2 by lia. apply list_fmap_ext.
      intros i c' Hc'%list_elem_of_lookup_2. unfold cell. simpl.
      rewrite decide_False; [done|]. by intros ->.
Qed.

Lemma reindex_own_columns (d : DataFrame) :
  NoDup (columns d) →
  Forall (λ row, length row = length (columns d)) (rows d) →
  pd.reindex (columns d) d = rows d.
Proof.
  intros Hcols Hrows. unfold pd.reindex.
  rewrite <- (list_fmap_id (rows d)) at 2. apply list_fmap_ext.
  intros i row Hrow%list_elem_of_lookup_2. simpl.
  rewrite Forall_forall in Hrows. by apply cell_zip_row, Hrows.
Qed.

Lemma NoDup_columns_DataFrame (records : list dict) :
  NoDup (columns (pd.DataFrame records)).
Proof. apply NoDup_uniq. Qed.

Lemma forallb_hashable_subseteq (a b : list (list value)) :
  a ⊆ b → forallb (forallb pd.hashable) b = true →
  forallb (forallb pd.hashable) a = true.
Proof.
  intros Hsub Hb. apply forallb_forall. intros row Hrow%list_elem_of_In.
  rewrite forallb_forall in Hb. by apply Hb, list_elem_of_In, Hsub.
Qed.

Lemma search_merge_tidy (df : option DataFrame) (records : list dict) (d : DataFrame) :
  TweetSearch.merge df (pd.DataFrame records) = Ok d → tidy d.
Proof.
  unfold TweetSearch.merge, pd.drop_duplicates. case_match eqn:Hhash; [|done].
  intros [= <-]. unfold tidy. simpl. split_and!.
  - destruct df as [old|]; simpl; apply NoDup_uniq.
  - apply Forall_forall. intros row Hrow.
    apply (proj1 (elem_of_uniq _ _)) in Hrow.
    destruct df as [old|]; simpl in *.
    + unfold pd.reindex in Hrow.
      apply elem_of_app in Hrow as [Hrow|Hrow];
        apply list_elem_of_fmap in Hrow as (x & -> & _); by rewrite length_fmap.
    + apply list_elem_of_fmap in Hrow as (x & -> & _). by rewrite length_fmap.
  - eapply forallb_hashable_subseteq; [|exact Hhash].
    intros row. apply elem_of_uniq.
Qed.





(** ** Size of the primary table *)


Section timeline_page.
Context `{Twalc}.
Variable fields : list string.
Variables handle dir fmt : string.
Variable output_handle : bool.
Variable handle_col : string.

Lemma timeline_page_falsy (st : Session) (r : Response) :
  truthy (data r) = false →
  Timeline.page fields handle dir fmt output_handle handle_col st r = Ok st.
Proof. unfold Timeline.page. by intros ->. Qed.

Lemma timeline_page_Ok (st st' : Session) (r : Response) :
  Timeline.page fields handle dir fmt output_handle handle_col st r = Ok st' →
  truthy (data r) = true →
  ∃ links tweets,
    (if has_refs fields then parse_tweet_links (items (data r)) else Ok []) = Ok links
    ∧ df_links st' = Timeline.merge_if (has_refs fields) (df_links st) (pd.DataFrame links)
    ∧ tweets = Timeline.merge (df_tweets st) (pd.DataFrame (Tweet_to_dict <$> items (data r)))
    ∧ df_tweets st'
      = Some (if output_handle then pd.set_column handle_col (VStr handle) tweets
              else tweets)
    ∧ num_collected st' = (num_collected st + length (items (data r)))%nat
    ∧ next_token st' = next_token st
    ∧ calls st' = calls st
    ∧ fetches st' = fetches st
    ∧ df_refs st' = Timeline.merge_if (truthy (includes_tweets r)) (df_refs st)
                      (pd.DataFrame (Tweet_row <$> items (includes_tweets r)))
    ∧ df_users st' = Timeline.merge_if (truthy (includes_users r)) (df_users st)
                       (pd.DataFrame (User_row <$> items (includes_users r)))
    ∧ df_media st' = df_media st
    ∧ Timeline.save fields handle dir fmt (truthy (includes_tweets r))
        (truthy (includes_users r)) (df_refs st') (df_users st') (df_links st')
        (df_tweets st') (out st) = Ok (out st').
Proof.
  unfold Timeline.page. intros Hp Ht. rewrite Ht in Hp.
  apply bind_Ok in Hp as (links & Hlinks & Hp).
  apply bind_Ok in Hp as (fs & Hsave & Hp).
  injection Hp as <-. simpl. exists links. eexists.
  rewrite length_fmap. split_and!; done.
Qed.

Lemma timeline_page_counters (st st' : Session) (r : Response) :
  Timeline.page fields handle dir fmt output_handle handle_col st r = Ok st' →
  next_token st' = next_token st ∧ calls st' = calls st ∧ fetches st' = fetches st.
Proof.
  intros Hp. destruct (truthy (data r)) eqn:Ht.
  - apply timeline_page_Ok in Hp as (links & tweets & _ & _ & _ & _ & _ & Hp); [|done].
    tauto.
  - rewrite timeline_page_falsy in Hp by done. by injection Hp as <-.
Qed.


(** In a timeline iteration only the link parser raises: the tables the
    saving block writes were assigned by the statements before it. *)
Lemma timeline_page_Raise (st : Session) (r : Response) (e : exn) :
  Timeline.page fields handle dir fmt output_handle handle_col st r = Raise e →
  has_refs fields = true ∧ parse_tweet_links (items (data r)) = Raise e.
Proof.
  unfold Timeline.page. destruct (truthy (data r)); [|done].
  destruct (has_refs fields) eqn:Hrefs.
  - destruct (parse_tweet_links (items (data r))) as [links|e0]; simpl.
    + unfold Timeline.save, Timeline.merge_if, write_if, write. rewrite Hrefs.
      repeat case_decide; destruct (truthy (includes_tweets r));
        destruct (truthy (includes_users r)); simpl; discriminate.
    + by intros [= ->].
  - simpl. unfold Timeline.save, Timeline.merge_if, write_if, write. rewrite Hrefs.
    repeat case_decide; destruct (truthy (includes_tweets r));
      destruct (truthy (includes_users r)); simpl; discriminate.
Qed.

End timeline_page.

(** C5, on the code: a timeline session over two pages of one tweet each
    ends with a tweets table of one row (the second tweet sits in a second
    [id] column) although two tweets were collected; the same two pages
    give a search session a table of two rows. *)
Theorem timeline_primary_rows_not_summed :
  (∃ st, @Timeline.pull plain_twalc two_pages [] "nasa" "out" "csv" false "handle" 100
           (Ok 11348282) only_out ∅ 2
         = (Some (Done, st), <["out/nasa" := Directory]> only_out)
         ∧ df_tweets st = Some (mkDF ["id"; "id"] [[VInt 1; VInt 2]])
         ∧ table_len (df_tweets st) = 1%nat
         ∧ num_collected st = 2%nat)
  ∧ (∃ st, @TweetSearch.pull plain_twalc two_pages [] "out" "csv" ∅ 250 100 = (Done, st)
           ∧ df_tweets st = Some (mkDF ["id"] [[VInt 1]; [VInt 2]])
           ∧ table_len (df_tweets st) = 2%nat
           ∧ num_collected st = 2%nat).
Proof. split; eexists; (split; [vm_compute; reflexivity|]); split_and!; reflexivity. Qed.

(** ** The link table *)

(** Without the field, a whole search session ends with no link table. *)
Lemma search_no_link_table `{Twalc} (client : Client) (fields : list string)
    (dir fmt : string) (fs : files) (total cap : Z) :
  "referenced_tweets" ∉ fields →
  df_links (TweetSearch.pull client fields dir fmt fs total cap).2 = None.
Proof.
  intros Hno%has_refs_false.
  apply (search_pull_invariant client fields dir fmt (λ st, df_links st = None));
    [done|done|..|done].
  - intros st r st' Hst Hp. destruct (truthy (data r)) eqn:Ht.
    + apply search_page_Ok in Hp as (links & _ & _ & _ & _ & Hl & _); [|done].
      rewrite Hno in Hl. simpl in Hl. injection Hl as <-. done.
    + rewrite search_page_falsy in Hp by done. by injection Hp as <-.
  - intros st r e st' Hst Hb.
    by rewrite (search_page_raised_links fields dir fmt st st' r e Hb Hno).
Qed.

(** C6: when ['referenced_tweets'] is not among the requested tweet
    fields, a page leaves the link table as it was (so a session never has
    one), whatever the page holds; when it is, the links merged for a page
    are those parsed from that page's records, and the [parent_id] of each
    is the [id] of one of these records.  Both classes. *)
Theorem link_table_gated `{Twalc} (fields : list string) (handle dir fmt : string)
    (output_handle : bool) (handle_col : string) (st st' : Session) (r : Response) :
  (TweetSearch.page fields dir fmt st r = Ok st' →
     ("referenced_tweets" ∉ fields → df_links st' = df_links st)
     ∧ ("referenced_tweets" ∈ fields → truthy (data r) = true →
        ∃ links d, parse_tweet_links (items (data r)) = Ok links
          ∧ Forall (parent_in_page (items (data r))) links
          ∧ TweetSearch.merge (df_links st) (pd.DataFrame links) = Ok d
          ∧ df_links st' = Some d))
  ∧ (Timeline.page fields handle dir fmt output_handle handle_col st r = Ok st' →
     ("referenced_tweets" ∉ fields → df_links st' = df_links st)
     ∧ ("referenced_tweets" ∈ fields → truthy (data r) = true →
        ∃ links, parse_tweet_links (items (data r)) = Ok links
          ∧ Forall (parent_in_page (items (data r))) links
          ∧ df_links st' = Some (Timeline.merge (df_links st) (pd.DataFrame links)))).
Proof.
  split; intros Hp; (split; [intros Hno%has_refs_false | intros Hyes%has_refs_true Ht]).
  - destruct (truthy (data r)) eqn:Ht.
    + apply search_page_Ok in Hp as (links & _ & _ & _ & _ & Hl & _); [|done].
      rewrite Hno in Hl. simpl in Hl. by injection Hl as <-.
    + rewrite search_page_falsy in Hp by done. by injection Hp as <-.
  - apply search_page_Ok in Hp as (links & Hparse & _ & _ & _ & Hl & _); [|done].
    rewrite Hyes in Hparse, Hl. simpl in Hl.
    apply fmap_Ok in Hl as (d & Hd & Heq). exists links, d.
    split_and!; [done| |done|done]. by apply parse_tweet_links_Ok in Hparse as [_ ?].
  - destruct (truthy (data r)) eqn:Ht.
    + apply timeline_page_Ok in Hp as (links & tweets & _ & Hl & _); [|done].
      by rewrite Hno in Hl.
    + rewrite timeline_page_falsy in Hp by done. by injection Hp as <-.
  - apply timeline_page_Ok in Hp as (links & tweets & Hparse & Hl & _); [|done].
    rewrite Hyes in Hparse, Hl. exists links.
    split_and!; [done| |done]. by apply parse_tweet_links_Ok in Hparse as [_ ?].
Qed.

Lemma link_table_gated_witness :
  ∃ links d,
    parse_tweet_links
      [[("id", VInt 2);
        ("referenced_tweets", VList [VDict [("type", VStr "quoted"); ("id", VInt 9)]])]]
    = Ok links
    ∧ Forall (parent_in_page
        [[("id", VInt 2);
          ("referenced_tweets", VList [VDict [("type", VStr "quoted"); ("id", VInt 9)]])]])
        links
    ∧ TweetSearch.merge None (pd.DataFrame links) = Ok d
    ∧ Some (mkDF ["parent_id"; "id"; "type"] [[VInt 2; VInt 9; VStr "quoted"]]) = Some d.
Proof.
  apply (proj1 (@link_table_gated plain_twalc ["id"; "referenced_tweets"] "nasa" "out"
                  "txt" false "handle" (start ∅)
                  (mkSession None 1
                     (Some (mkDF ["parent_id"; "id"; "type"] [[VInt 2; VInt 9; VStr "quoted"]]))
                     None None
                     (Some (mkDF ["id"; "referenced_tweets"]
                        [[VInt 2; VList [VDict [("type", VStr "quoted"); ("id", VInt 9)]]]]))
                     None ∅ 0 0)
                  (mkResponse
                     (Some [[("id", VInt 2);
                             ("referenced_tweets",
                              VList [VDict [("type", VStr "quoted"); ("id", VInt 9)]])]])
                     None None None None))).
  - reflexivity.
  - apply has_refs_true. reflexivity.
  - reflexivity.
Defined.

(** ** Output files *)

Lemma append_cancel_l (p a b : string) : p +:+ a = p +:+ b → a = b.
Proof. induction p as [|c p IH]; simpl; [done|]. intros [= Heq]. by apply IH. Qed.

Lemma save_path_for_inj (dir fmt k1 k2 : string) :
  save_path_for dir fmt k1 = save_path_for dir fmt k2 →
  k1 +:+ "." +:+ fmt = k2 +:+ "." +:+ fmt.
Proof.
  unfold save_path_for. intros Heq%append_cancel_l.
  by apply (append_cancel_l "/data_") in Heq.
Qed.

Ltac path_ne := let Heq := fresh in intros Heq%save_path_for_inj; discriminate Heq.

Lemma write_other (fmt : format) (path p : string) (df : option DataFrame) (fs fs' : files) :
  write fmt path df fs = Ok fs' → p ≠ path → fs' !! p = fs !! p.
Proof.
  unfold write. destruct df as [d|]; [|done]. intros [= <-] Hne.
  by rewrite lookup_insert_ne.
Qed.

Lemma write_stored (fmt : format) (path : string) (df : option DataFrame) (fs fs' : files) :
  write fmt path df fs = Ok fs' → fs' !! path = stored fmt df ∧ is_Some df.
Proof.
  unfold write. destruct df as [d|]; [|done]. intros [= <-].
  by rewrite lookup_insert_eq.
Qed.

Lemma write_if_other (b : bool) (fmt : format) (path p : string)
    (df : option DataFrame) (fs fs' : files) :
  write_if b fmt path df fs = Ok fs' → p ≠ path → fs' !! p = fs !! p.
Proof.
  unfold write_if. destruct b; [apply write_other|]. by intros [= <-].
Qed.

(** A table that was just merged (or left alone) and is then written (or
    left alone) under the same condition stays in step with its file. *)
Lemma write_if_on_disk (b : bool) (path : string) (df df' : option DataFrame)
    (new : DataFrame) (fs0 fs fs' : files) :
  TweetSearch.merge_if b df new = Ok df' →
  write_if b CsvQuoteAll path df' fs = Ok fs' →
  fs !! path = on_disk fs0 path df →
  fs' !! path = on_disk fs0 path df'.
Proof.
  intros Hm Hw Hfs. apply merge_if_Ok in Hm as [[-> ->]|(-> & d & -> & _)].
  - unfold write_if in Hw. by injection Hw as <-.
  - unfold write_if in Hw. by apply write_stored in Hw as [? _].
Qed.

(** A file keeps what it held across a write to another path. *)
Ltac carry_if W Hfile :=
  rewrite <- (write_if_other _ _ _ _ _ _ _ W) in Hfile by path_ne.
Ltac carry W Hfile :=
  rewrite <- (write_other _ _ _ _ _ _ W) in Hfile by path_ne.

Section search_output.
Context `{Twalc}.
Variable client : Client.
Variable fields : list string.
Variable dir : string.
Variable fs0 : files.

Lemma search_page_synced (st st' : Session) (r : Response) :
  search_output_synced dir fs0 st →
  TweetSearch.page fields dir "csv" st r = Ok st' →
  search_output_synced dir fs0 st'.
Proof.
  intros (Srefs & Susers & Smedia & Slinks & Stweets) Hp.
  destruct (truthy (data r)) eqn:Ht; cycle 1.
  { rewrite search_page_falsy in Hp by done. injection Hp as <-. by split_and!. }
  apply search_page_Ok in Hp
    as (links & _ & Mrefs & Musers & Mmedia & Mlinks & Mtweets & Hsave & _); [|done].
  unfold TweetSearch.save in Hsave. rewrite decide_True in Hsave by done.
  apply bind_Ok in Hsave as (fs1 & W1 & Hsave).
  apply bind_Ok in Hsave as (fs2 & W2 & Hsave).
  apply bind_Ok in Hsave as (fs3 & W3 & Hsave).
  apply bind_Ok in Hsave as (fs4 & W4 & W5).
  pose proof (write_if_on_disk _ _ _ _ _ _ _ _ Mrefs W1 Srefs) as R1.
  carry_if W1 Susers. carry_if W1 Smedia. carry_if W1 Slinks.
  pose proof (write_if_on_disk _ _ _ _ _ _ _ _ Musers W2 Susers) as R2.
  carry_if W2 R1. carry_if W2 Smedia. carry_if W2 Slinks.
  pose proof (write_if_on_disk _ _ _ _ _ _ _ _ Mmedia W3 Smedia) as R3.
  carry_if W3 R1. carry_if W3 R2. carry_if W3 Slinks.
  pose proof (write_if_on_disk _ _ _ _ _ _ _ _ Mlinks W4 Slinks) as R4.
  carry_if W4 R1. carry_if W4 R2. carry_if W4 R3.
  carry W5 R1. carry W5 R2. carry W5 R3. carry W5 R4.
  apply write_stored in W5 as [R5 _]. rewrite Mtweets in R5.
  split_and!; [done..|]. by rewrite Mtweets.
Qed.

Lemma search_page_confined (st st' : Session) (r : Response) :
  output_confined dir search_kinds fs0 st →
  TweetSearch.page fields dir "csv" st r = Ok st' →
  output_confined dir search_kinds fs0 st'.
Proof.
  intros Hconf Hp path Hpath.
  destruct (truthy (data r)) eqn:Ht; cycle 1.
  { rewrite search_page_falsy in Hp by done. injection Hp as <-. by apply Hconf. }
  apply search_page_Ok in Hp as (links & _ & _ & _ & _ & _ & _ & Hsave & _); [|done].
  unfold TweetSearch.save in Hsave. rewrite decide_True in Hsave by done.
  apply bind_Ok in Hsave as (fs1 & W1 & Hsave).
  apply bind_Ok in Hsave as (fs2 & W2 & Hsave).
  apply bind_Ok in Hsave as (fs3 & W3 & Hsave).
  apply bind_Ok in Hsave as (fs4 & W4 & W5).
  rewrite (write_other _ _ _ _ _ _ W5), (write_if_other _ _ _ _ _ _ _ W4),
    (write_if_other _ _ _ _ _ _ _ W3), (write_if_other _ _ _ _ _ _ _ W2),
    (write_if_other _ _ _ _ _ _ _ W1);
    [by apply Hconf|apply Hpath; unfold search_kinds; set_solver..].
Qed.

(** A page with tweets that was merged with the links field requested
    leaves a link table, and its file. *)
Lemma search_page_links_written (st st' : Session) (r : Response) :
  TweetSearch.page fields dir "csv" st r = Ok st' →
  truthy (data r) = true → "referenced_tweets" ∈ fields →
  ∃ d, df_links st' = Some d
       ∧ out st' !! save_path_for dir "csv" "ref_links" = Some (CsvQuoteAll, d).
Proof.
  intros Hp Ht Hyes%has_refs_true.
  apply search_page_Ok in Hp as (links & _ & _ & _ & _ & Mlinks & _ & Hsave & _); [|done].
  rewrite Hyes in Mlinks. simpl in Mlinks. apply fmap_Ok in Mlinks as (d & _ & Hd).
  exists d. split; [done|].
  unfold TweetSearch.save in Hsave. rewrite decide_True in Hsave by done.
  apply bind_Ok in Hsave as (fs1 & W1 & Hsave).
  apply bind_Ok in Hsave as (fs2 & W2 & Hsave).
  apply bind_Ok in Hsave as (fs3 & W3 & Hsave).
  apply bind_Ok in Hsave as (fs4 & W4 & W5).
  rewrite Hyes, Hd in W4. apply write_stored in W4 as [R4 _].
  carry W5 R4. exact R4.
Qed.

Lemma search_page_link_table_made (st st' : Session) (r : Response) :
  link_table_made fields st →
  TweetSearch.page fields dir "csv" st r = Ok st' →
  link_table_made fields st'.
Proof.
  intros Hst Hp Hyes Hpos. destruct (truthy (data r)) eqn:Ht.
  - destruct (search_page_links_written st st' r Hp Ht Hyes) as (d & -> & _).
    by eexists.
  - rewrite search_page_falsy in Hp by done. injection Hp as <-. by apply Hst.
Qed.

End search_output.

Lemma timeline_write_if_on_disk (b : bool) (path : string) (df : option DataFrame)
    (new : DataFrame) (fs0 fs fs' : files) :
  write_if b CsvQuoteAll path (Timeline.merge_if b df new) fs = Ok fs' →
  fs !! path = on_disk fs0 path df →
  fs' !! path = on_disk fs0 path (Timeline.merge_if b df new).
Proof.
  unfold write_if, Timeline.merge_if. destruct b.
  - intros Hw _. by apply write_stored in Hw as [? _].
  - by intros [= <-].
Qed.

Section timeline_output.
Context `{Twalc}.
Variable client : Client.
Variable fields : list string.
Variables handle output_dir : string.
Variable output_handle : bool.
Variable handle_col : string.
Variable tweets_per_query : Z.
Variable fs0 : files.

Local Abbreviation dir := (Timeline.save_dir handle output_dir).

Lemma timeline_page_synced (st st' : Session) (r : Response) :
  timeline_output_synced dir fs0 st →
  Timeline.page fields handle output_dir "csv" output_handle handle_col st r = Ok st' →
  timeline_output_synced dir fs0 st'.
Proof.
  intros (Srefs & Susers & Slinks & Stweets & Smedia) Hp.
  destruct (truthy (data r)) eqn:Ht; cycle 1.
  { rewrite timeline_page_falsy in Hp by done. injection Hp as <-. by split_and!. }
  apply timeline_page_Ok in Hp
    as (links & tweets & _ & Mlinks & _ & Mtweets & _ & _ & _ & _
        & Mrefs & Musers & Mmedia & Hsave); [|done].
  unfold Timeline.save in Hsave. rewrite decide_True in Hsave by done.
  fold dir in Hsave.
  apply bind_Ok in Hsave as (fs1 & W1 & Hsave).
  apply bind_Ok in Hsave as (fs2 & W2 & Hsave).
  apply bind_Ok in Hsave as (fs3 & W3 & W4).
  rewrite Mrefs in W1. rewrite Musers in W2. rewrite Mlinks in W3.
  pose proof (timeline_write_if_on_disk _ _ _ _ _ _ _ W1 Srefs) as R1.
  carry_if W1 Susers. carry_if W1 Slinks.
  pose proof (timeline_write_if_on_disk _ _ _ _ _ _ _ W2 Susers) as R2.
  carry_if W2 R1. carry_if W2 Slinks.
  pose proof (timeline_write_if_on_disk _ _ _ _ _ _ _ W3 Slinks) as R3.
  carry_if W3 R1. carry_if W3 R2.
  carry W4 R1. carry W4 R2. carry W4 R3.
  apply write_stored in W4 as [R4 _]. rewrite Mtweets in R4.
  rewrite <- Mrefs in R1. rewrite <- Musers in R2. rewrite <- Mlinks in R3.
  split_and!; [done..|by rewrite Mtweets|by rewrite Mmedia].
Qed.

Lemma timeline_page_confined (st st' : Session) (r : Response) :
  output_confined dir timeline_kinds fs0 st →
  Timeline.page fields handle output_dir "csv" output_handle handle_col st r = Ok st' →
  output_confined dir timeline_kinds fs0 st'.
Proof.
  intros Hconf Hp path Hpath.
  destruct (truthy (data r)) eqn:Ht; cycle 1.
  { rewrite timeline_page_falsy in Hp by done. injection Hp as <-. by apply Hconf. }
  apply timeline_page_Ok in Hp
    as (links & tweets & _ & _ & _ & _ & _ & _ & _ & _ & _ & _ & _ & Hsave); [|done].
  unfold Timeline.save in Hsave. rewrite decide_True in Hsave by done.
  fold dir in Hsave.
  apply bind_Ok in Hsave as (fs1 & W1 & Hsave).
  apply bind_Ok in Hsave as (fs2 & W2 & Hsave).
  apply bind_Ok in Hsave as (fs3 & W3 & W4).
  rewrite (write_other _ _ _ _ _ _ W4), (write_if_other _ _ _ _ _ _ _ W3),
    (write_if_other _ _ _ _ _ _ _ W2), (write_if_other _ _ _ _ _ _ _ W1);
    [by apply Hconf|apply Hpath; unfold timeline_kinds; set_solver..].
Qed.

Lemma timeline_page_links_written (st st' : Session) (r : Response) :
  Timeline.page fields handle output_dir "csv" output_handle handle_col st r = Ok st' →
  truthy (data r) = true → "referenced_tweets" ∈ fields →
  ∃ d, df_links st' = Some d
       ∧ out st' !! save_path_for dir "csv" "ref_links" = Some (CsvQuoteAll, d).
Proof.
  intros Hp Ht Hyes%has_refs_true.
  apply timeline_page_Ok in Hp
    as (links & tweets & _ & Mlinks & _ & _ & _ & _ & _ & _ & _ & _ & _ & Hsave); [|done].
  rewrite Hyes in Mlinks. simpl in Mlinks. eexists. split; [exact Mlinks|].
  unfold Timeline.save in Hsave. rewrite decide_True in Hsave by done.
  fold dir in Hsave.
  apply bind_Ok in Hsave as (fs1 & W1 & Hsave).
  apply bind_Ok in Hsave as (fs2 & W2 & Hsave).
  apply bind_Ok in Hsave as (fs3 & W3 & W4).
  rewrite Hyes, Mlinks in W3. apply write_stored in W3 as [R3 _].
  carry W4 R3. exact R3.
Qed.

Lemma timeline_page_link_table_made (st st' : Session) (r : Response) :
  link_table_made fields st →
  Timeline.page fields handle output_dir "csv" output_handle handle_col st r = Ok st' →
  link_table_made fields st'.
Proof.
  intros Hst Hp Hyes Hpos. destruct (truthy (data r)) eqn:Ht.
  - destruct (timeline_page_links_written st st' r Hp Ht Hyes) as (d & -> & _).
    by eexists.
  - rewrite timeline_page_falsy in Hp by done. injection Hp as <-. by apply Hst.
Qed.

(** The timeline loop keeps what its steps keep, whenever it ends. *)
Lemma timeline_loop_invariant (fmt : string) (P : Session → Prop) :
  (∀ st n, P st → P (fetched n st)) →
  (∀ st token, P st → P (advance token st)) →
  (∀ st r st', P st →
     Timeline.page fields handle output_dir fmt output_handle handle_col st r = Ok st' →
     P st') →
  ∀ fuel st e st',
    P st →
    Timeline.loop client fields handle output_dir fmt output_handle handle_col
      tweets_per_query fuel st = Some (e, st') →
    P st'.
Proof.
  intros Hfetched Hadvance Hpage.
  induction fuel as [|fuel IH]; intros st e st' HP Hloop; simpl in Hloop; [done|].
  destruct (get_tweets client (calls st) (next_token st) tweets_per_query) as [r calls'].
  pose proof (Hfetched st calls' HP) as HP'.
  destruct r as [[response|]|e0].
  - destruct (Timeline.page fields handle output_dir fmt output_handle handle_col
                (fetched calls' st) response) as [st1|e1] eqn:Hp.
    + pose proof (Hadvance _ (meta_next_token response) (Hpage _ _ _ HP' Hp)) as HP''.
      destruct (meta_next_token response); [by eapply IH|].
      by injection Hloop as <- <-.
    + by injection Hloop as <- <-.
  - by injection Hloop as <- <-.
  - destruct e0; try (by injection Hloop as <- <-); by eapply IH.
Qed.

(** How [Timeline.pull] goes: the user lookup or the making of the
    directory raises, nothing done; or the directory is made, where
    there was none, and the loop runs. *)
Lemma timeline_pull_cases (fmt : string) (user : result Z) (t t' : tree) (fs : files)
    (fuel : nat) (r : option (ending * Session)) :
  Timeline.pull client fields handle output_dir fmt output_handle handle_col
    tweets_per_query user t fs fuel = (r, t') →
  (t' = t ∧ ∃ e, r = Some (Aborted e, start fs))
  ∨ (t !! dir = None ∧ t' = <[dir := Directory]> t
     ∧ r = Timeline.loop client fields handle output_dir fmt output_handle handle_col
             tweets_per_query fuel (start fs)).
Proof.
  unfold Timeline.pull. destruct user as [user_id|e]; [|intros [= <- <-]; left; eauto].
  unfold os.mkdir, os.exists_. case_bool_decide as Hex; [intros [= <- <-]; left; eauto|].
  apply eq_None_not_Some in Hex.
  destruct (t !! output_dir) as [[|]|]; intros [= <- <-]; eauto.
Qed.

(** A property of the session that no step of the loop breaks holds of
    the state [Timeline.pull] ends in, whenever it ends. *)
Lemma timeline_pull_invariant (fmt : string) (P : Session → Prop) (user : result Z)
    (t : tree) (fs : files) (fuel : nat) (e : ending) (st : Session) :
  (∀ st n, P st → P (fetched n st)) →
  (∀ st token, P st → P (advance token st)) →
  (∀ st r st', P st →
     Timeline.page fields handle output_dir fmt output_handle handle_col st r = Ok st' →
     P st') →
  P (start fs) →
  (Timeline.pull client fields handle output_dir fmt output_handle handle_col
     tweets_per_query user t fs fuel).1 = Some (e, st) →
  P st.
Proof.
  intros Hfetched Hadvance Hpage Hstart Hpull.
  destruct (Timeline.pull client fields handle output_dir fmt output_handle handle_col
              tweets_per_query user t fs fuel) as [r t'] eqn:Hrun.
  simpl in Hpull. subst r.
  apply timeline_pull_cases in Hrun as [(_ & e0 & [= -> ->])|(_ & _ & Hloop)]; [done|].
  by eapply (timeline_loop_invariant fmt P Hfetched Hadvance Hpage fuel (start fs) e st).
Qed.

End timeline_output.

(** C8, amended: in a session that saves as [csv] into a directory whose
    path holds no [%], every merged page leaves each table that exists
    on disk in full, written over the file it had: [data_tweets.csv],
    [data_ref_tweets.csv], [data_ref_links.csv], and the users in
    [data_users.csv] for a search session, in [data_authors.csv] for a
    timeline session; [data_media.csv] is written by search sessions
    only.  The file of a table that does not exist is as it was when the
    session started, and no other file is touched.  The link table
    exists, and is written, as soon as a page with tweets was merged with
    the links field requested, also when it has no rows.  So it is when
    the session ends; a search session left by an exception has the
    files of its last merged page. *)
Theorem csv_output_synced `{Twalc} (client : Client) (fields : list string)
    (handle dir : string) (output_handle : bool) (handle_col : string)
    (tweets_per_query : Z) (fs : files) :
  percent_free dir → percent_free handle →
  ((∀ st r st', TweetSearch.page fields dir "csv" st r = Ok st' →
      (search_output_synced dir fs st → search_output_synced dir fs st')
      ∧ (truthy (data r) = true → "referenced_tweets" ∈ fields →
         ∃ d, df_links st' = Some d
              ∧ out st' !! save_path_for dir "csv" "ref_links" = Some (CsvQuoteAll, d)))
   ∧ ∀ total cap,
       ((TweetSearch.pull client fields dir "csv" fs total cap).1 = Done →
        search_output_synced dir fs (TweetSearch.pull client fields dir "csv" fs total cap).2
        ∧ link_table_made fields (TweetSearch.pull client fields dir "csv" fs total cap).2)
       ∧ (∃ st, search_output_synced dir fs st
                ∧ out (TweetSearch.pull client fields dir "csv" fs total cap).2 = out st)
       ∧ output_confined dir search_kinds fs
           (TweetSearch.pull client fields dir "csv" fs total cap).2)
  ∧ ((∀ st r st',
        Timeline.page fields handle dir "csv" output_handle handle_col st r = Ok st' →
        (timeline_output_synced (Timeline.save_dir handle dir) fs st →
         timeline_output_synced (Timeline.save_dir handle dir) fs st')
        ∧ (truthy (data r) = true → "referenced_tweets" ∈ fields →
           ∃ d, df_links st' = Some d
                ∧ out st' !! save_path_for (Timeline.save_dir handle dir) "csv" "ref_links"
                  = Some (CsvQuoteAll, d)))
     ∧ ∀ user t fuel e st,
         (Timeline.pull client fields handle dir "csv" output_handle handle_col
            tweets_per_query user t fs fuel).1 = Some (e, st) →
         timeline_output_synced (Timeline.save_dir handle dir) fs st
         ∧ link_table_made fields st
         ∧ output_confined (Timeline.save_dir handle dir) timeline_kinds fs st).
Proof.
  intros _ _.
  assert (search_output_synced dir fs (start fs)) as Hsearch.
  { unfold search_output_synced. simpl. by split_and!. }
  assert (timeline_output_synced (Timeline.save_dir handle dir) fs (start fs)) as Htimeline.
  { unfold timeline_output_synced. simpl. by split_and!. }
  assert (link_table_made fields (start fs)) as Hlinks.
  { intros _ Hpos. simpl in Hpos. lia. }
  split.
  - split.
    { intros st r st' Hp. split.
      - intros Hst. by eapply search_page_synced.
      - by apply (search_page_links_written fields dir st st' r). }
    intros total cap. split_and!.
    + pose proof (search_pull_ends client fields dir "csv"
                    (λ st, search_output_synced dir fs st ∧ link_table_made fields st)
                    (λ _ _, True) fs total cap) as Hend.
      destruct (TweetSearch.pull client fields dir "csv" fs total cap) as [[|e] st];
        simpl; [intros _|done].
      apply Hend; try done.
      intros st0 r st1 [Hs Hl] Hp. split.
      * by eapply search_page_synced.
      * by eapply search_page_link_table_made.
    + pose proof (search_pull_ends client fields dir "csv"
                    (search_output_synced dir fs)
                    (λ _ st', ∃ st, search_output_synced dir fs st ∧ out st' = out st)
                    fs total cap) as Hend.
      destruct (TweetSearch.pull client fields dir "csv" fs total cap) as [[|e] st];
        simpl.
      * exists st. split; [|done]. apply Hend; try done.
        -- intros st0 r st1 Hs Hp. by eapply search_page_synced.
        -- intros st0 e Hs. by exists st0.
        -- intros st0 r e st1 Hs Hb. exists st0. split; [done|].
           by apply search_page_raised in Hb as (_ & _ & -> & _).
      * apply Hend; try done.
        -- intros st0 r st1 Hs Hp. by eapply search_page_synced.
        -- intros st0 e0 Hs. by exists st0.
        -- intros st0 r e0 st1 Hs Hb. exists st0. split; [done|].
           by apply search_page_raised in Hb as (_ & _ & -> & _).
    + apply search_pull_invariant; [done|done| | |by intros path _].
      * intros st r st'. apply search_page_confined.
      * intros st r e st' Hconf Hb path Hpath.
        apply search_page_raised in Hb as (_ & _ & -> & _). by apply Hconf.
  - split.
    { intros st r st' Hp. split.
      - intros Hst. by eapply timeline_page_synced.
      - by apply (timeline_page_links_written fields handle dir output_handle handle_col
                    st st' r). }
    intros user t fuel e st Hpull. split_and!.
    + eapply (timeline_pull_invariant client fields handle dir output_handle handle_col
                tweets_per_query "csv"
                (timeline_output_synced (Timeline.save_dir handle dir) fs));
        [done|done| |exact Htimeline|exact Hpull].
      intros st0 r st1. apply timeline_page_synced.
    + eapply (timeline_pull_invariant client fields handle dir output_handle handle_col
                tweets_per_query "csv" (link_table_made fields));
        [done|done| |exact Hlinks|exact Hpull].
      intros st0 r st1. apply timeline_page_link_table_made.
    + eapply (timeline_pull_invariant client fields handle dir output_handle handle_col
                tweets_per_query "csv"
                (output_confined (Timeline.save_dir handle dir) timeline_kinds fs));
        [done|done| |by intros path _|exact Hpull].
      intros st0 r st1. apply timeline_page_confined.
Qed.

Lemma csv_output_synced_witness :
  (search_output_synced "out" {[ "out/data_media.csv" := (CsvQuoteAll, mkDF ["old"] []) ]}
     (@TweetSearch.pull plain_twalc tweet_with_author ["referenced_tweets"] "out" "csv"
        {[ "out/data_media.csv" := (CsvQuoteAll, mkDF ["old"] []) ]} 100 100).2
   ∧ link_table_made ["referenced_tweets"]
       (@TweetSearch.pull plain_twalc tweet_with_author ["referenced_tweets"] "out" "csv"
          {[ "out/data_media.csv" := (CsvQuoteAll, mkDF ["old"] []) ]} 100 100).2)
  ∧ ∃ st, (@Timeline.pull plain_twalc tweet_with_author ["referenced_tweets"] "nasa" "out"
             "csv" false "handle" 100 (Ok 11348282) only_out
             {[ "out/data_media.csv" := (CsvQuoteAll, mkDF ["old"] []) ]} 1).1
          = Some (Done, st)
          ∧ timeline_output_synced "out/nasa"
              {[ "out/data_media.csv" := (CsvQuoteAll, mkDF ["old"] []) ]} st
          ∧ out st !! "out/nasa/data_authors.csv"
            = Some (CsvQuoteAll, mkDF ["id"; "username"] [[VInt 7; VStr "nasa"]])
          ∧ out st !! "out/nasa/data_ref_links.csv" = Some (CsvQuoteAll, mkDF [] []).
Proof.
  destruct (@csv_output_synced plain_twalc tweet_with_author ["referenced_tweets"]
              "nasa" "out" false "handle" 100
              {[ "out/data_media.csv" := (CsvQuoteAll, mkDF ["old"] []) ]})
    as [[_ Hsearch] [_ Htimeline]]; [reflexivity|reflexivity|].
  split.
  - destruct (Hsearch 100 100) as (Hdone & _ & _). apply Hdone. reflexivity.
  - eexists. split; [vm_compute; reflexivity|].
    split; [|split; reflexivity].
    eapply (Htimeline (Ok 11348282) only_out 1%nat Done). vm_compute. reflexivity.
Defined.

(** C8 as stated fails: the author table of a search session goes to
    [data_users.csv], there is no [data_authors.csv]; a link table with no
    rows is written all the same; and with [json] the session is left by a
    [NameError] at the first page, nothing written. *)
Lemma search_writes_users_not_authors :
  (∃ st, @TweetSearch.pull plain_twalc tweet_with_author ["referenced_tweets"] "out" "csv"
           ∅ 100 100 = (Done, st)
         ∧ df_users st = Some (mkDF ["id"; "username"] [[VInt 7; VStr "nasa"]])
         ∧ out st !! "out/data_authors.csv" = None
         ∧ out st !! "out/data_users.csv"
           = Some (CsvQuoteAll, mkDF ["id"; "username"] [[VInt 7; VStr "nasa"]])
         ∧ out st !! "out/data_ref_links.csv" = Some (CsvQuoteAll, mkDF [] []))
  ∧ (@TweetSearch.pull plain_twalc tweet_with_author ["referenced_tweets"] "out" "json"
       ∅ 100 100).1 = Aborted NameError
  ∧ out (@TweetSearch.pull plain_twalc tweet_with_author ["referenced_tweets"] "out" "json"
           ∅ 100 100).2 = ∅.
Proof.
  split; [|split; vm_compute; reflexivity].
  eexists. split; [vm_compute; reflexivity|]. split_and!; reflexivity.
Qed.

(** ** Termination on the null cursor *)

Lemma retry_loop_responds (client : Client) (request : Request) (left calls : nat)
    (r : Response) :
  client calls request = Responds r →
  retry_loop client request (S left) calls = (Ok (Some r), S calls).
Proof. intros Hc. simpl. by rewrite Hc. Qed.

Lemma serves_from_cons (client : Client) (k : nat) (r : Response) (pages : list Response) :
  serves_from client k (r :: pages) →
  (∀ request, client k request = Responds r) ∧ serves_from client (S k) pages.
Proof.
  intros Hs. split.
  - intros request. rewrite <- (Nat.add_0_r k). by apply Hs.
  - intros n r' request Hn. replace (S k + n)%nat with (k + S n)%nat by lia.
    by apply Hs.
Qed.

Lemma serve_serves (pages : list Response) : serves_from (serve pages) 0 pages.
Proof. intros n r request Hn. unfold serve. simpl. by rewrite Hn. Qed.

Section null_cursor.
Context `{Twalc}.
Variable client : Client.
Variable fields : list string.
Variables handle dir fmt : string.
Variable output_handle : bool.
Variable handle_col : string.
Variable tweets_per_query : Z.

Lemma search_loop_pages (before : list Response) (last : Response) :
  Forall (λ r, is_Some (meta_next_token r)) before →
  meta_next_token last = None →
  ∀ (batches : list Z) (st st' : Session),
    serves_from client (calls st) (before ++ [last]) →
    (length (before ++ [last]) ≤ length batches)%nat →
    search_merge_all fields dir fmt st (before ++ [last]) = Ok st' →
    TweetSearch.loop client fields dir fmt batches st = (Done, st')
    ∧ fetches st' = (fetches st + length (before ++ [last]))%nat.
Proof.
  intros Hbefore Hlast. induction Hbefore as [|r before [token Hr] _ IH];
    intros batches st st' Hserves Hlen Hmerge.
  - destruct batches as [|batch rest]; [simpl in Hlen; lia|].
    apply serves_from_cons in Hserves as [Hc _].
    simpl in Hmerge. apply bind_Ok in Hmerge as (st1 & Hp & Hmerge).
    injection Hmerge as <-.
    simpl. unfold search_tweets, max_retries.
    rewrite (retry_loop_responds _ _ _ _ last) by apply Hc.
    rewrite (proj2 (search_page_body_None _ _ _ _ _ _) Hp), Hlast. split; [done|].
    apply search_page_counters in Hp as (_ & _ & Hf). simpl in *. lia.
  - destruct batches as [|batch rest]; [simpl in Hlen; lia|].
    apply serves_from_cons in Hserves as [Hc Hserves].
    simpl in Hmerge. apply bind_Ok in Hmerge as (st1 & Hp & Hmerge).
    pose proof (search_page_counters _ _ _ _ _ _ Hp) as (_ & Hcalls & Hf).
    destruct (IH rest (advance (meta_next_token r) st1) st') as [Hloop Hfetches].
    { simpl. rewrite Hcalls. exact Hserves. }
    { simpl in Hlen |- *. lia. }
    { exact Hmerge. }
    simpl. unfold search_tweets, max_retries.
    rewrite (retry_loop_responds _ _ _ _ r) by apply Hc.
    rewrite (proj2 (search_page_body_None _ _ _ _ _ _) Hp), Hr.
    rewrite Hr in Hloop, Hfetches. split; [exact Hloop|].
    rewrite Hfetches. simpl in *. lia.
Qed.

Lemma timeline_loop_pages (before : list Response) (last : Response) :
  Forall (λ r, is_Some (meta_next_token r)) before →
  meta_next_token last = None →
  ∀ (fuel : nat) (st st' : Session),
    serves_from client (calls st) (before ++ [last]) →
    (length (before ++ [last]) ≤ fuel)%nat →
    timeline_merge_all fields handle dir fmt output_handle handle_col st
      (before ++ [last]) = Ok st' →
    Timeline.loop client fields handle dir fmt output_handle handle_col
      tweets_per_query fuel st = Some (Done, st')
    ∧ fetches st' = (fetches st + length (before ++ [last]))%nat.
Proof.
  intros Hbefore Hlast. induction Hbefore as [|r before [token Hr] _ IH];
    intros fuel st st' Hserves Hlen Hmerge.
  - destruct fuel as [|fuel]; [simpl in Hlen; lia|].
    apply serves_from_cons in Hserves as [Hc _].
    simpl in Hmerge. apply bind_Ok in Hmerge as (st1 & Hp & Hmerge).
    injection Hmerge as <-.
    simpl. unfold get_tweets, max_retries.
    rewrite (retry_loop_responds _ _ _ _ last) by apply Hc.
    rewrite Hp, Hlast. split; [done|].
    apply timeline_page_counters in Hp as (_ & _ & Hf). simpl in *. lia.
  - destruct fuel as [|fuel]; [simpl in Hlen; lia|].
    apply serves_from_cons in Hserves as [Hc Hserves].
    simpl in Hmerge. apply bind_Ok in Hmerge as (st1 & Hp & Hmerge).
    pose proof (timeline_page_counters _ _ _ _ _ _ _ _ _ Hp) as (_ & Hcalls & Hf).
    destruct (IH fuel (advance (meta_next_token r) st1) st') as [Hloop Hfetches].
    { simpl. rewrite Hcalls. exact Hserves. }
    { simpl in Hlen |- *. lia. }
    { exact Hmerge. }
    simpl. unfold get_tweets, max_retries.
    rewrite (retry_loop_responds _ _ _ _ r) by apply Hc.
    rewrite Hp, Hr. rewrite Hr in Hloop, Hfetches. split; [exact Hloop|].
    rewrite Hfetches. simpl in *. lia.
Qed.

End null_cursor.

(** Pages without expansions merge without raising when the links field
    is not requested and the format is [csv]; so do any number of them. *)
Lemma search_page_plain `{Twalc} (fields : list string) (dir : string)
    (st : Session) (r : Response) :
  "referenced_tweets" ∉ fields → plain_page r →
  ∃ st', TweetSearch.page fields dir "csv" st r = Ok st'.
Proof.
  intros Hno%has_refs_false (Ht & Hu & Hm).
  unfold TweetSearch.page, TweetSearch.page_body.
  destruct (truthy (data r)); [|by eexists].
  rewrite Ht, Hu, Hm, Hno. simpl.
  unfold seq, TweetSearch.merge_into, TweetSearch.saving, TweetSearch.save. simpl.
  rewrite Hno. simpl. by eexists.
Qed.

Lemma search_merge_all_plain `{Twalc} (fields : list string) (dir : string)
    (pages : list Response) (st : Session) :
  "referenced_tweets" ∉ fields → Forall plain_page pages →
  ∃ st', search_merge_all fields dir "csv" st pages = Ok st'.
Proof.
  intros Hno Hplain. revert st.
  induction Hplain as [|r pages Hr _ IH]; intros st; simpl; [by eexists|].
  destruct (search_page_plain fields dir (fetched (S (calls st)) st) r Hno Hr)
    as [st1 ->].
  simpl. apply IH.
Qed.

(** The null cursor ends a search session over such pages, with nothing
    assumed about the merges. *)
Corollary null_cursor_ends_plain_search `{Twalc} (client : Client)
    (fields : list string) (dir : string) (fs : files) (pages : list Response)
    (total cap : Z) (batches : list Z) :
  serves_from client 0 pages →
  ends_with_null_cursor pages →
  "referenced_tweets" ∉ fields → Forall plain_page pages →
  plan total cap = Ok batches →
  (length pages ≤ length batches)%nat →
  ∃ st', TweetSearch.pull client fields dir "csv" fs total cap = (Done, st')
         ∧ fetches st' = length pages.
Proof.
  intros Hserves (before & last & -> & Hbefore & Hlast) Hno Hplain Hplan Hlen.
  destruct (search_merge_all_plain fields dir (before ++ [last]) (start fs) Hno Hplain)
    as [st' Hmerge].
  exists st'. unfold TweetSearch.pull. rewrite Hplan.
  by destruct (search_loop_pages client fields dir "csv" before last Hbefore Hlast
                 batches (start fs) st').
Qed.

(** With [output_dir] a directory and the session's path free, the
    directory is made and the loop runs. *)
Lemma timeline_pull_runs `{Twalc} (client : Client) (fields : list string)
    (handle dir fmt : string) (output_handle : bool) (handle_col : string)
    (tweets_per_query : Z) (user_id : Z) (t : tree) (fs : files) (fuel : nat) :
  t !! dir = Some Directory →
  t !! Timeline.save_dir handle dir = None →
  Timeline.pull client fields handle dir fmt output_handle handle_col tweets_per_query
    (Ok user_id) t fs fuel
  = (Timeline.loop client fields handle dir fmt output_handle handle_col
       tweets_per_query fuel (start fs),
     <[Timeline.save_dir handle dir := Directory]> t).
Proof.
  intros Hdir Hfree. unfold Timeline.pull, os.mkdir, os.exists_.
  rewrite bool_decide_eq_false_2 by (rewrite Hfree; by intros [? ?]).
  by rewrite Hdir.
Qed.

(** C7, amended: when the remote serves a sequence of pages of which the
    last, and only the last, has a null cursor, and merging them raises
    nothing, both loops make exactly one fetch cycle per page and then end
    normally: the search loop whenever the plan has at least that many
    batches, however many more, the timeline loop always (its model given
    at least that much fuel), once its directory is made. *)
Theorem null_cursor_ends_session `{Twalc} (client : Client) (fields : list string)
    (handle dir fmt : string) (output_handle : bool) (handle_col : string)
    (tweets_per_query : Z) (fs : files) (pages : list Response) :
  serves_from client 0 pages →
  ends_with_null_cursor pages →
  (∀ total cap batches st',
     plan total cap = Ok batches →
     (length pages ≤ length batches)%nat →
     search_merge_all fields dir fmt (start fs) pages = Ok st' →
     TweetSearch.pull client fields dir fmt fs total cap = (Done, st')
     ∧ fetches st' = length pages)
  ∧ (∀ user_id t fuel st',
     t !! dir = Some Directory →
     t !! Timeline.save_dir handle dir = None →
     (length pages ≤ fuel)%nat →
     timeline_merge_all fields handle dir fmt output_handle handle_col (start fs) pages
       = Ok st' →
     Timeline.pull client fields handle dir fmt output_handle handle_col
       tweets_per_query (Ok user_id) t fs fuel
     = (Some (Done, st'), <[Timeline.save_dir handle dir := Directory]> t)
     ∧ fetches st' = length pages).
Proof.
  intros Hserves (before & last & -> & Hbefore & Hlast). split.
  - intros total cap batches st' Hplan Hlen Hmerge.
    unfold TweetSearch.pull. rewrite Hplan.
    by destruct (search_loop_pages client fields dir fmt before last Hbefore Hlast
                   batches (start fs) st').
  - intros user_id t fuel st' Hdir Hfree Hlen Hmerge.
    rewrite timeline_pull_runs by done.
    destruct (timeline_loop_pages client fields handle dir fmt output_handle
                handle_col tweets_per_query before last Hbefore Hlast
                fuel (start fs) st') as [-> Hfetches]; done.
Qed.

Lemma null_cursor_ends_session_witness :
  ∃ st', @TweetSearch.pull plain_twalc (serve three_pages) [] "out" "csv" ∅ 950 100
         = (Done, st')
         ∧ fetches st' = 3%nat
         ∧ plan 950 100 = Ok [100; 100; 100; 100; 100; 100; 100; 100; 100; 50].
Proof.
  destruct (@search_merge_all plain_twalc [] "out" "csv" (start ∅) three_pages)
    as [st'|e] eqn:Hmerge; [|discriminate Hmerge].
  exists st'.
  destruct (@null_cursor_ends_session plain_twalc (serve three_pages) [] "nasa" "out"
              "csv" false "handle" 100 ∅ three_pages) as [Hsearch _].
  - apply serve_serves.
  - exists (take 2 three_pages), (mkResponse (Some [[("id", VInt 3)]]) None None None None).
    split; [reflexivity|]. split; [|reflexivity].
    repeat constructor; by eexists.
  - destruct (Hsearch 950 100 [100; 100; 100; 100; 100; 100; 100; 100; 100; 50] st')
      as [Hpull Hfetches]; [reflexivity|simpl; lia|exact Hmerge|].
    split; [exact Hpull|]. split; [exact Hfetches|reflexivity].
Defined.

(** C7 as stated fails: a search planned in one batch ends after the
    first of two pages, one fetch cycle made and the cursor not null; and
    a page whose record lacks ['referenced_tweets'], the links being
    requested, ends the session by the [KeyError] of the link parser
    although its cursor is null. *)
Lemma null_cursor_not_reached :
  (serves_from (serve two_page_list) 0 two_page_list
   ∧ ends_with_null_cursor two_page_list
   ∧ plan 10 100 = Ok [10]
   ∧ ∃ st, @TweetSearch.pull plain_twalc (serve two_page_list) [] "out" "csv"
             ∅ 10 100 = (Done, st)
           ∧ fetches st = 1%nat
           ∧ fetches st ≠ length two_page_list
           ∧ next_token st = Some "page2")
  ∧ (ends_with_null_cursor [mkResponse (Some [[("id", VInt 1)]]) None None None None]
     ∧ plan 10 100 = Ok [10]
     ∧ @TweetSearch.pull plain_twalc
         (serve [mkResponse (Some [[("id", VInt 1)]]) None None None None])
         ["referenced_tweets"] "out" "csv" ∅ 10 100
       = (Aborted KeyError, fetched 1 (start ∅))).
Proof.
  split.
  - split; [apply serve_serves|]. split.
    + exists [mkResponse (Some [[("id", VInt 1)]]) None None None (Some "page2")],
        (mkResponse (Some [[("id", VInt 2)]]) None None None None).
      split; [reflexivity|]. split; [|reflexivity].
      apply Forall_cons. split; [by eexists|constructor].
    + split; [reflexivity|]. eexists. split; [vm_compute; reflexivity|].
      split_and!; [reflexivity|discriminate|reflexivity].
  - split.
    + exists [], (mkResponse (Some [[("id", VInt 1)]]) None None None None).
      split; [reflexivity|]. split; [constructor|reflexivity].
    + split; [reflexivity|]. vm_compute. reflexivity.
Qed.

(** * Further properties

    What else the code shows, beyond the statements above. *)

(** ** Batch planning, all inputs *)

Lemma plan_closed_form_quotient (total cap : Z) :
  cap ≠ 0 → 0 ≤ total `div` cap → plan total cap = Ok (plan_shape total cap).
Proof.
  intros Hc Hq. unfold plan, plan_shape, Py.floordiv, Py.modulo.
  rewrite !decide_False by done. simpl.
  rewrite list_mul_succ by done.
  destruct (decide (total `mod` cap < 10)) as [Hr|Hr].
  - rewrite setitem_neg_last. simpl.
    destruct (decide (total `div` cap + 1 > 1)) as [Hq1|Hq1].
    + rewrite decide_True by lia.
      replace (Z.to_nat (total `div` cap)) with (S (Z.to_nat (total `div` cap - 1))) by lia.
      rewrite replicate_S_end, <- app_assoc. simpl.
      apply setitem_neg_penult.
    + rewrite decide_False by lia.
      by replace (Z.to_nat (total `div` cap)) with O by lia.
  - apply setitem_neg_last.
Qed.

Lemma plan_zero_cap (total : Z) : plan total 0 = Raise ZeroDivisionError.
Proof. reflexivity. Qed.

Lemma plan_negative_quotient (total cap : Z) :
  cap ≠ 0 → total `div` cap < 0 → plan total cap = Raise IndexError.
Proof.
  intros Hc Hq. unfold plan, Py.floordiv, Py.modulo.
  rewrite !decide_False by done. simpl.
  rewrite list_mul_nonpos by lia.
  case_decide; by rewrite setitem_neg_nil.
Qed.

Lemma plan_shape_length (total cap : Z) :
  0 ≤ total `div` cap →
  Z.of_nat (length (plan_shape total cap)) = total `div` cap + 1.
Proof.
  intros Hq. unfold plan_shape. repeat case_decide;
    rewrite ?length_app, ?length_replicate; simpl; lia.
Qed.

Lemma plan_shape_prefix (total cap : Z) (i : nat) (b : Z) :
  plan_shape total cap !! i = Some b →
  (i + 2 < length (plan_shape total cap))%nat → b = cap.
Proof.
  unfold plan_shape. repeat case_decide;
    rewrite ?length_app, ?length_replicate; simpl; intros Hi Hlen; try lia.
  - rewrite lookup_app_l in Hi by (rewrite length_replicate; lia).
    by apply lookup_replicate in Hi as [-> _].
  - rewrite lookup_app_l in Hi by (rewrite length_replicate; lia).
    by apply lookup_replicate in Hi as [-> _].
Qed.

(** X1: for a total that is not negative and a positive batch size, the
    plan has [total // batch_size + 1] batches (one more call than full
    batches, also when the total is a multiple of the batch size), and
    every batch but the last two is a full one. *)
Theorem plan_length (total cap : Z) :
  0 ≤ total → 0 < cap →
  ∃ batches, plan total cap = Ok batches
    ∧ Z.of_nat (length batches) = total `div` cap + 1
    ∧ ∀ i b, batches !! i = Some b → (i + 2 < length batches)%nat → b = cap.
Proof.
  intros Ht Hc. assert (0 ≤ total `div` cap) as Hq by (apply Z.div_pos; lia).
  exists (plan_shape total cap). split_and!.
  - apply plan_closed_form_quotient; lia.
  - by apply plan_shape_length.
  - apply plan_shape_prefix.
Qed.

Lemma plan_length_witness :
  ∃ batches, plan 300 100 = Ok batches
    ∧ Z.of_nat (length batches) = 300 `div` 100 + 1
    ∧ ∀ i b, batches !! i = Some b → (i + 2 < length batches)%nat → b = 100.
Proof. apply (plan_length 300 100); lia. Defined.

(** X2: for a total that is not negative and a positive batch size, the
    batches add up to exactly the total, except that a total below both 10
    and the batch size is planned as one batch of 10. *)
Theorem plan_sum_exact (total cap : Z) :
  0 ≤ total → 0 < cap →
  ∃ batches, plan total cap = Ok batches
    ∧ Py.sum batches = if decide (total < 10 ∧ total < cap) then 10 else total.
Proof.
  intros Ht Hc. exists (plan_shape total cap). split.
  - apply plan_closed_form; lia.
  - by apply plan_shape_sum.
Qed.

Lemma plan_sum_exact_witness :
  ∃ batches, plan 205 100 = Ok batches
    ∧ Py.sum batches = if decide (205 < 10 ∧ 205 < 100) then 10 else 205.
Proof. apply (plan_sum_exact 205 100); lia. Defined.

(** X3: the planning step raises exactly in two cases: a batch size of 0
    gives [ZeroDivisionError], and a floor quotient
    [max_results // batch_size] below 0 (total and batch size of opposite
    signs) gives [IndexError], the batch list being empty; in every other
    case it returns a plan. *)
Theorem plan_raises_exactly (total cap : Z) :
  (plan total cap = Raise ZeroDivisionError ↔ cap = 0)
  ∧ (plan total cap = Raise IndexError ↔ cap ≠ 0 ∧ total `div` cap < 0)
  ∧ ((∃ batches, plan total cap = Ok batches) ↔ cap ≠ 0 ∧ 0 ≤ total `div` cap).
Proof.
  destruct (decide (cap = 0)) as [->|Hc].
  { rewrite plan_zero_cap. split_and!; split; try done.
    - by intros [? _].
    - by intros [batches ?].
    - by intros [? _]. }
  destruct (decide (total `div` cap < 0)) as [Hq|Hq].
  - rewrite plan_negative_quotient by done. split_and!; split; try done.
    + by intros [batches ?].
    + intros [_ ?]. lia.
  - rewrite plan_closed_form_quotient by (done || lia). split_and!; split; try done.
    + intros [_ ?]. lia.
    + intros _. split; [done|lia].
    + by eexists.
Qed.

(** X4: whenever the planning step returns, the plan is not empty and its
    last batch is at least 10. *)
Theorem plan_last_batch_at_least_10 (total cap : Z) (batches : list Z) :
  plan total cap = Ok batches →
  ∃ init b, batches = init ++ [b] ∧ 10 ≤ b.
Proof.
  intros Hplan.
  destruct (decide (cap = 0)) as [->|Hc]; [by rewrite plan_zero_cap in Hplan|].
  destruct (decide (total `div` cap < 0)) as [Hq|Hq];
    [by rewrite plan_negative_quotient in Hplan|].
  rewrite plan_closed_form_quotient in Hplan by (done || lia).
  injection Hplan as <-. unfold plan_shape. repeat case_decide.
  - exists (replicate (Z.to_nat (total `div` cap - 1)) cap ++ [cap - (10 - total `mod` cap)]), 10.
    by rewrite <- app_assoc.
  - by exists [], 10.
  - exists (replicate (Z.to_nat (total `div` cap)) cap), (total `mod` cap).
    split; [done|lia].
Qed.

Lemma plan_last_batch_at_least_10_witness :
  ∃ init b, [5; -3; 10] = init ++ [b] ∧ 10 ≤ b.
Proof. apply (plan_last_batch_at_least_10 12 5). reflexivity. Defined.

(** ** The retry loop, in general *)

Lemma retry_loop_first_outcome (client : Client) (request : Request)
    (left calls j : nat) (o : outcome) :
  (j < left)%nat →
  (∀ n, (calls ≤ n < calls + j)%nat → client n request = Throws TwitterServerError) →
  client (calls + j)%nat request = o →
  o ≠ Throws TwitterServerError →
  retry_loop client request left calls
  = (match o with Responds r => Ok (Some r) | Throws e => Raise e end,
     S (calls + j)).
Proof.
  revert left calls. induction j as [|j IH]; intros left calls Hj Hdown Ho Hne.
  - destruct left as [|left]; [lia|]. simpl. rewrite Nat.add_0_r in *. rewrite Ho.
    destruct o as [r|e]; [done|]. by destruct e.
  - destruct left as [|left]; [lia|]. simpl. rewrite Hdown by lia.
    rewrite (IH left (S calls)); [|lia| |by rewrite <- Ho; f_equal; lia|done].
    + do 2 f_equal. lia.
    + intros n Hn. apply Hdown. lia.
Qed.

Lemma retry_loop_calls (client : Client) (request : Request) (left calls : nat) :
  (calls + (if left is O then 0 else 1)
   ≤ (retry_loop client request left calls).2 ≤ calls + left)%nat.
Proof.
  revert calls. induction left as [|left IH]; intros calls; simpl; [lia|].
  destruct (client calls request) as [r|e]; simpl; [lia|].
  destruct e; simpl; try lia.
  specialize (IH (S calls)). destruct left; simpl in *; lia.
Qed.

Lemma retry_loop_None (client : Client) (request : Request) (left calls calls' : nat) :
  retry_loop client request left calls = (Ok None, calls') →
  calls' = (calls + left)%nat
  ∧ ∀ n, (calls ≤ n < calls + left)%nat → client n request = Throws TwitterServerError.
Proof.
  revert calls. induction left as [|left IH]; intros calls Hr; simpl in Hr.
  - injection Hr as <-. split; [lia|]. intros n Hn. lia.
  - destruct (client calls request) as [r|e] eqn:Hc; [done|].
    destruct e; try done. apply IH in Hr as [-> Hdown]. split; [lia|].
    intros n Hn. destruct (decide (n = calls)) as [->|Hne]; [done|].
    apply Hdown. lia.
Qed.

(** X5: [search_tweets] and [get_tweets] hand back the first answer of
    the client that is not a server error, when it comes within the five
    attempts: after [j < 5] server errors, a response is returned and any
    other exception is raised, after [j + 1] calls in all. *)
Theorem fetch_returns_first_answer (client : Client) (calls j : nat)
    (size : Z) (token : option string) (o : outcome) :
  (j < 5)%nat →
  (∀ n, (calls ≤ n < calls + j)%nat →
        client n (mkRequest size token) = Throws TwitterServerError) →
  client (calls + j)%nat (mkRequest size token) = o →
  o ≠ Throws TwitterServerError →
  search_tweets client calls size token
  = (match o with Responds r => Ok (Some r) | Throws e => Raise e end, S (calls + j))
  ∧ get_tweets client calls token size
    = (match o with Responds r => Ok (Some r) | Throws e => Raise e end, S (calls + j)).
Proof.
  intros Hj Hdown Ho Hne. unfold search_tweets, get_tweets, max_retries.
  split; by apply retry_loop_first_outcome.
Qed.

Lemma fetch_returns_first_answer_witness :
  search_tweets
    (λ n _, if decide (n < 2)%nat then Throws TwitterServerError
            else Responds (mkResponse None None None None None)) 0 100 None
  = (Ok (Some (mkResponse None None None None None)), 3%nat)
  ∧ get_tweets
      (λ n _, if decide (n < 2)%nat then Throws TwitterServerError
              else Responds (mkResponse None None None None None)) 0 None 100
    = (Ok (Some (mkResponse None None None None None)), 3%nat).
Proof.
  apply (fetch_returns_first_answer
           (λ n _, if decide (n < 2)%nat then Throws TwitterServerError
                   else Responds (mkResponse None None None None None))
           0 2 100 None (Responds (mkResponse None None None None None))).
  - lia.
  - intros n Hn. rewrite decide_True by lia. reflexivity.
  - reflexivity.
  - discriminate.
Defined.

(** X6: [search_tweets] calls the client at least once and at most five
    times; it returns [None] exactly when all five calls raised the server
    error; and it never raises the server error itself: an exception it
    raises is one the client raised on the last call made. *)
Theorem search_tweets_attempts (client : Client) (calls : nat) (size : Z)
    (token : option string) :
  (calls + 1 ≤ (search_tweets client calls size token).2 ≤ calls + 5)%nat
  ∧ ((search_tweets client calls size token).1 = Ok None
     ↔ ∀ n, (calls ≤ n < calls + 5)%nat →
            client n (mkRequest size token) = Throws TwitterServerError)
  ∧ ∀ e, (search_tweets client calls size token).1 = Raise e →
         e ≠ TwitterServerError
         ∧ ∃ n, client n (mkRequest size token) = Throws e.
Proof.
  unfold search_tweets, max_retries. split; [|split].
  - apply (retry_loop_calls client _ 5 calls).
  - split.
    + intros Hnone.
      destruct (retry_loop client (mkRequest size token) 5 calls) as [r calls'] eqn:Hr.
      simpl in Hnone. subst r. by apply retry_loop_None in Hr as [_ ?].
    + intros Hdown. by rewrite retry_loop_exhausted.
  - intros e He.
    destruct (retry_loop client (mkRequest size token) 5 calls) as [r calls'] eqn:Hr.
    simpl in He. subst r. by eapply retry_loop_Raise.
Qed.

(** ** The link parser, in general *)

Lemma parse_refs_acc (tweet : dict) (refs : list value) (acc : list dict) :
  parse_refs tweet refs acc = (links ← parse_refs tweet refs []; Ok (acc ++ links)).
Proof.
  revert acc. induction refs as [|ref refs IH]; intros acc; simpl.
  - by rewrite app_nil_r.
  - destruct (new_link tweet ref) as [link|e]; simpl; [|done].
    rewrite (IH (acc ++ [link])), (IH [link]).
    destruct (parse_refs tweet refs []) as [links|e]; simpl; [|done].
    by rewrite <- app_assoc.
Qed.

Lemma parse_tweet_acc (tweet : dict) (acc : list dict) :
  parse_tweet tweet acc = (links ← parse_tweet tweet []; Ok (acc ++ links)).
Proof.
  unfold parse_tweet. destruct (subscript tweet "referenced_tweets") as [rt|e]; simpl; [|done].
  assert (∀ acc', (refs ← iterate rt; parse_refs tweet refs acc')
                  = (links ← (refs ← iterate rt; parse_refs tweet refs []);
                     Ok (acc' ++ links))) as Hrefs.
  { intros acc'. destruct (iterate rt) as [refs|e]; simpl; [|done].
    apply parse_refs_acc. }
  destruct rt; simpl; rewrite ?app_nil_r; try done; apply Hrefs.
Qed.

Lemma parse_tweets_acc (tweets : list dict) (acc : list dict) :
  parse_tweets tweets acc = (links ← parse_tweets tweets []; Ok (acc ++ links)).
Proof.
  revert acc. induction tweets as [|tweet tweets IH]; intros acc; simpl.
  - by rewrite app_nil_r.
  - rewrite (parse_tweet_acc tweet acc).
    destruct (parse_tweet tweet []) as [l1|e]; simpl; [|done].
    rewrite (IH (acc ++ l1)), (IH l1).
    destruct (parse_tweets tweets []) as [l2|e]; simpl; [|done].
    by rewrite app_assoc.
Qed.

(** X7: parsing a page is parsing its parts: the links of [a ++ b] are
    the links of [a] followed by those of [b], and the call raises what
    the first failing part raises. *)
Theorem parse_tweet_links_app (a b : list dict) :
  parse_tweet_links (a ++ b)
  = (la ← parse_tweet_links a; lb ← parse_tweet_links b; Ok (la ++ lb)).
Proof.
  unfold parse_tweet_links. induction a as [|tweet a IH]; simpl.
  - by destruct (parse_tweets b []).
  - rewrite (parse_tweet_acc tweet []).
    destruct (parse_tweet tweet []) as [l1|e]; simpl; [|done].
    rewrite (parse_tweets_acc (a ++ b) l1), IH, (parse_tweets_acc a l1).
    destruct (parse_tweets a []) as [l2|e]; simpl; [|done].
    destruct (parse_tweets b []) as [l3|e]; simpl; [|done].
    by rewrite app_assoc.
Qed.

Lemma new_link_Ok (tweet : dict) (ref : value) (link : dict) :
  new_link tweet ref = Ok link →
  ∃ parent_id id type,
    dict_get "id" tweet = Some parent_id
    ∧ getitem ref "id" = Ok id ∧ getitem ref "type" = Ok type
    ∧ link = [("parent_id", parent_id); ("id", id); ("type", type)].
Proof.
  unfold new_link, subscript. intros Hl.
  destruct (dict_get "id" tweet) as [parent_id|]; [|discriminate]. simpl in Hl.
  apply bind_Ok in Hl as (id & Hid & Hl). apply bind_Ok in Hl as (type & Htype & Hl).
  injection Hl as <-. by exists parent_id, id, type.
Qed.

Lemma parse_refs_from (tweet : dict) (refs : list value) (links : list dict) :
  parse_refs tweet refs [] = Ok links →
  length links = length refs
  ∧ Forall (λ link, ∃ ref parent_id id type,
              ref ∈ refs ∧ dict_get "id" tweet = Some parent_id
              ∧ getitem ref "id" = Ok id ∧ getitem ref "type" = Ok type
              ∧ link = [("parent_id", parent_id); ("id", id); ("type", type)]) links.
Proof.
  revert links. induction refs as [|ref refs IH]; intros links Hp; simpl in Hp.
  - injection Hp as <-. by split.
  - apply bind_Ok in Hp as (link & Hlink & Hp).
    rewrite parse_refs_acc in Hp. apply bind_Ok in Hp as (rest & Hrest & Hp).
    injection Hp as <-. apply IH in Hrest as [Hlen Hall].
    split; [simpl; lia|]. constructor.
    + apply new_link_Ok in Hlink as (pid & id & ty & ? & ? & ? & ->).
      exists ref, pid, id, ty. split_and!; [left|done..].
    + eapply Forall_impl; [exact Hall|].
      intros l (r & pid & id & ty & ? & ? & ? & ? & ->).
      exists r, pid, id, ty. split_and!; [by right|done..].
Qed.

Lemma parse_tweet_from (tweet : dict) (links : list dict) :
  parse_tweet tweet [] = Ok links →
  Forall (link_from [tweet]) links.
Proof.
  unfold parse_tweet, subscript. intros Hp.
  destruct (dict_get "referenced_tweets" tweet) as [rt|] eqn:Hrt; [|discriminate].
  simpl in Hp.
  assert (rt = VNone ∧ links = []
          ∨ (refs ← iterate rt; parse_refs tweet refs []) = Ok links) as [[-> ->]|Hp'].
  { destruct rt; auto. left. by injection Hp as <-. }
  - constructor.
  - apply bind_Ok in Hp' as (refs & Hrefs & Hp').
    apply parse_refs_from in Hp' as [_ Hall].
    eapply Forall_impl; [exact Hall|].
    intros l (r & pid & id & ty & ? & ? & ? & ? & ->).
    exists tweet, rt, refs, r, pid, id, ty. split_and!; try done. left.
Qed.

Lemma link_from_mono (tweets tweets' : list dict) (link : dict) :
  tweets ⊆ tweets' → link_from tweets link → link_from tweets' link.
Proof.
  intros Hsub (tweet & rt & refs & r & pid & id & ty & Hin & H).
  exists tweet, rt, refs, r, pid, id, ty. split; [by apply Hsub|done].
Qed.

(** X8: every link the parser returns is the record of exactly three
    fields [parent_id], [id], [type], made from one record of the page
    (its [id]) and one of that record's references (its [id] and
    [type]). *)
Theorem parse_tweet_links_shape (tweets : list dict) (links : list dict) :
  parse_tweet_links tweets = Ok links → Forall (link_from tweets) links.
Proof.
  unfold parse_tweet_links. revert links.
  induction tweets as [|tweet tweets IH]; intros links Hp; simpl in Hp.
  - injection Hp as <-. constructor.
  - apply bind_Ok in Hp as (l1 & Hl1 & Hp).
    rewrite parse_tweets_acc in Hp. apply bind_Ok in Hp as (l2 & Hl2 & Hp).
    injection Hp as <-. apply Forall_app. split.
    + eapply Forall_impl; [by apply parse_tweet_from|].
      intros l. apply link_from_mono. intros x ->%list_elem_of_singleton. left.
    + eapply Forall_impl; [by apply IH|].
      intros l. apply link_from_mono. intros x Hx. by right.
Qed.

Lemma parse_tweet_links_shape_witness :
  Forall (link_from
            [[("id", VInt 2);
              ("referenced_tweets",
               VList [VDict [("type", VStr "quoted"); ("id", VInt 9)]])]])
    [[("parent_id", VInt 2); ("id", VInt 9); ("type", VStr "quoted")]].
Proof. apply parse_tweet_links_shape. reflexivity. Defined.

Lemma parse_refs_readable (tweet : dict) (refs : list value) :
  Forall readable_ref refs → (refs ≠ [] → has_key "id" tweet) →
  ∃ links, parse_refs tweet refs [] = Ok links ∧ length links = length refs.
Proof.
  intros Hrefs Hid. induction Hrefs as [|ref refs Href _ IH]; [by exists []|].
  destruct Hid as [parent_id Hpid]; [done|].
  destruct Href as (d & -> & [id Hid] & [type Htype]).
  destruct IH as (links & Hlinks & Hlen); [by intros _; exists parent_id|].
  exists ([("parent_id", parent_id); ("id", id); ("type", type)] :: links).
  simpl. unfold new_link, getitem, subscript. rewrite Hpid, Hid, Htype. simpl.
  rewrite parse_refs_acc, Hlinks. simpl. by rewrite Hlen.
Qed.

Lemma parse_tweet_readable (tweet : dict) :
  readable_tweet tweet →
  ∃ links, parse_tweet tweet [] = Ok links ∧ length links = length (refs_of tweet).
Proof.
  unfold parse_tweet, subscript, refs_of.
  intros [Hnone|(refs & Hrefs & Hreadable & Hid)].
  - rewrite Hnone. by exists [].
  - rewrite Hrefs. simpl. by apply parse_refs_readable.
Qed.

(** X9: on a page of records the parser can read (the key present with
    [None] or with a list of dicts that have [id] and [type], and the
    record's own [id] present when the list is not empty) the parser
    returns, with one link per listed reference. *)
Theorem parse_tweet_links_readable (tweets : list dict) :
  Forall readable_tweet tweets →
  ∃ links, parse_tweet_links tweets = Ok links
           ∧ length links = length (tweets ≫= refs_of).
Proof.
  unfold parse_tweet_links.
  induction 1 as [|tweet tweets Htweet _ (l2 & Hl2 & Hlen2)]; [by exists []|].
  destruct (parse_tweet_readable tweet Htweet) as (l1 & Hl1 & Hlen1).
  exists (l1 ++ l2). simpl. rewrite Hl1. simpl.
  rewrite parse_tweets_acc, Hl2. simpl. split; [done|].
  by rewrite !length_app, Hlen1, Hlen2.
Qed.

Lemma parse_tweet_links_readable_witness :
  ∃ links,
    parse_tweet_links
      [ [("id", VInt 1); ("referenced_tweets", VNone)];
        [("id", VInt 2);
         ("referenced_tweets",
          VList [VDict [("type", VStr "quoted"); ("id", VInt 9)];
                 VDict [("type", VStr "replied_to"); ("id", VInt 1)]])] ]
    = Ok links
    ∧ length links
      = length ([ [("id", VInt 1); ("referenced_tweets", VNone)];
                  [("id", VInt 2);
                   ("referenced_tweets",
                    VList [VDict [("type", VStr "quoted"); ("id", VInt 9)];
                           VDict [("type", VStr "replied_to"); ("id", VInt 1)]])] ]
                ≫= refs_of).
Proof.
  apply parse_tweet_links_readable.
  apply Forall_cons. split; [by left|].
  apply Forall_cons. split; [|constructor].
  right. eexists. split; [reflexivity|]. split; [|by intros _; eexists].
  apply Forall_cons. split; [eexists; split; [reflexivity|]; split; by eexists|].
  apply Forall_cons. split; [eexists; split; [reflexivity|]; split; by eexists|].
  constructor.
Defined.

(** ** Search sessions, in general *)

Lemma subscript_Raise (d : dict) (k : string) (e : exn) :
  subscript d k = Raise e → e = KeyError.
Proof. unfold subscript. destruct (dict_get k d); [done|]. by intros [= <-]. Qed.

Lemma getitem_Raise (v : value) (k : string) (e : exn) :
  getitem v k = Raise e → e = KeyError ∨ e = TypeError.
Proof.
  destruct v; simpl; try (intros [= <-]; by right).
  intros ?%subscript_Raise. by left.
Qed.

Lemma bind_Raise_inv {A B} (m : result A) (f : A → result B) (e : exn) :
  m ≫= f = Raise e → m = Raise e ∨ ∃ a, m = Ok a ∧ f a = Raise e.
Proof.
  destruct m as [a|e']; intros He; [right; eauto|].
  left. change (@Raise B e' = Raise e) in He. by injection He as ->.
Qed.

Lemma new_link_Raise (tweet : dict) (ref : value) (e : exn) :
  new_link tweet ref = Raise e → e = KeyError ∨ e = TypeError.
Proof.
  unfold new_link. intros He.
  apply bind_Raise_inv in He as [He%subscript_Raise|(pid & _ & He)]; [by left|].
  apply bind_Raise_inv in He as [He%getitem_Raise|(id & _ & He)]; [done|].
  apply bind_Raise_inv in He as [He%getitem_Raise|(ty & _ & He)]; done.
Qed.

Lemma parse_refs_Raise (tweet : dict) (refs : list value) (acc : list dict) (e : exn) :
  parse_refs tweet refs acc = Raise e → e = KeyError ∨ e = TypeError.
Proof.
  revert acc. induction refs as [|ref refs IH]; intros acc He; simpl in He; [done|].
  apply bind_Raise_inv in He as [He%new_link_Raise|(link & _ & He)]; [done|].
  by eapply IH.
Qed.

Lemma iterate_Raise (v : value) (e : exn) : iterate v = Raise e → e = TypeError.
Proof. destruct v; simpl; try done; by intros [= <-]. Qed.

Lemma parse_tweet_Raise (tweet : dict) (acc : list dict) (e : exn) :
  parse_tweet tweet acc = Raise e → e = KeyError ∨ e = TypeError.
Proof.
  unfold parse_tweet. intros He.
  apply bind_Raise_inv in He as [He%subscript_Raise|(rt & _ & He)]; [by left|].
  assert ((refs ← iterate rt; parse_refs tweet refs acc) = Raise e) as He'
    by (by destruct rt).
  apply bind_Raise_inv in He' as [He'%iterate_Raise|(refs & _ & He')]; [by right|].
  by eapply parse_refs_Raise.
Qed.

Lemma parse_tweets_Raise (tweets : list dict) (acc : list dict) (e : exn) :
  parse_tweets tweets acc = Raise e → e = KeyError ∨ e = TypeError.
Proof.
  revert acc. induction tweets as [|tweet tweets IH]; intros acc He; simpl in He; [done|].
  apply bind_Raise_inv in He as [He%parse_tweet_Raise|(acc' & _ & He)]; [done|].
  by eapply IH.
Qed.

Lemma write_Raise (fmt : format) (path : string) (df : option DataFrame) (fs : files)
    (e : exn) :
  write fmt path df fs = Raise e → e = AttributeError.
Proof. unfold write. destruct df; [done|]. by intros [= <-]. Qed.

Lemma write_if_Raise (b : bool) (fmt : format) (path : string) (df : option DataFrame)
    (fs : files) (e : exn) :
  write_if b fmt path df fs = Raise e → e = AttributeError.
Proof. unfold write_if. destruct b; [apply write_Raise|done]. Qed.

Lemma search_save_Raise (fields : list string) (dir fmt : string) (b1 b2 b3 : bool)
    (refs users media links tweets : option DataFrame) (fs : files) (e : exn) :
  TweetSearch.save fields dir fmt b1 b2 b3 refs users media links tweets fs = Raise e →
  e = AttributeError ∨ e = NameError.
Proof.
  unfold TweetSearch.save. intros He. repeat case_decide; try done.
  - left.
    apply bind_Raise_inv in He as [He%write_if_Raise|(f1 & _ & He)]; [done|].
    apply bind_Raise_inv in He as [He%write_if_Raise|(f2 & _ & He)]; [done|].
    apply bind_Raise_inv in He as [He%write_if_Raise|(f3 & _ & He)]; [done|].
    apply bind_Raise_inv in He as [He%write_if_Raise|(f4 & _ & He)]; [done|].
    by apply write_Raise in He.
  - right. by injection He as <-.
Qed.

(** What merging a page can raise. *)
Lemma search_page_Raise `{Twalc} (fields : list string) (dir fmt : string)
    (st : Session) (r : Response) (e : exn) :
  TweetSearch.page fields dir fmt st r = Raise e →
  e = KeyError ∨ e = TypeError ∨ e = AttributeError ∨ e = NameError.
Proof.
  unfold TweetSearch.page.
  destruct (TweetSearch.page_body fields dir fmt st r) as [[e0|] st'] eqn:Hb; [|done].
  intros [= ->]. unfold TweetSearch.page_body in Hb.
  destruct (truthy (data r)); [|done].
  destruct (if has_refs fields then parse_tweet_links (items (data r)) else Ok [])
    as [links|e0] eqn:Hl.
  2:{ injection Hb as <- <-. destruct (has_refs fields); [|done].
      apply parse_tweets_Raise in Hl as [->| ->]; auto. }
  body_raised Hb;
    try (match goal with M : TweetSearch.merge _ _ = Raise _ |- _ =>
           apply merge_Raise in M as ->; by auto end).
  all: unfold TweetSearch.saving in Hb;
    destruct (TweetSearch.save _ _ _ _ _ _ _ _ _ _ _ _) eqn:Hs in Hb; [done|];
    injection Hb as <- <-; apply search_save_Raise in Hs as [->| ->]; auto.
Qed.

Lemma search_page_no_csv `{Twalc} (fields : list string) (dir fmt : string)
    (st st' : Session) (r : Response) :
  fmt ≠ "csv" → TweetSearch.page fields dir fmt st r = Ok st' → out st' = out st.
Proof.
  intros Hfmt Hp. destruct (truthy (data r)) eqn:Ht.
  - apply search_page_Ok in Hp as (links & _ & _ & _ & _ & _ & _ & Hsave & _); [|done].
    unfold TweetSearch.save in Hsave. rewrite decide_False in Hsave by done.
    case_decide; [done|]. by injection Hsave as <-.
  - rewrite search_page_falsy in Hp by done. by injection Hp as <-.
Qed.

(** With [json] a page that has tweets is never merged: the saving block
    raises before the session state is updated. *)
Lemma search_page_json `{Twalc} (fields : list string) (dir : string)
    (st : Session) (r : Response) :
  truthy (data r) = true → ∃ e, TweetSearch.page fields dir "json" st r = Raise e.
Proof.
  intros Ht. destruct (TweetSearch.page fields dir "json" st r) as [st'|e] eqn:Hp;
    [|by eexists].
  apply search_page_Ok in Hp as (links & _ & _ & _ & _ & _ & _ & Hsave & _); [|done].
  unfold TweetSearch.save in Hsave. rewrite decide_False in Hsave by done.
  by rewrite decide_True in Hsave.
Qed.

Lemma timeline_page_no_output `{Twalc} (fields : list string)
    (handle dir fmt : string) (output_handle : bool) (handle_col : string)
    (st st' : Session) (r : Response) :
  fmt ≠ "csv" → fmt ≠ "json" →
  Timeline.page fields handle dir fmt output_handle handle_col st r = Ok st' →
  out st' = out st.
Proof.
  intros Hcsv Hjson Hp. destruct (truthy (data r)) eqn:Ht.
  - apply timeline_page_Ok in Hp
      as (links & tweets & _ & _ & _ & _ & _ & _ & _ & _ & _ & _ & _ & Hsave); [|done].
    unfold Timeline.save in Hsave. rewrite !decide_False in Hsave by done.
    by injection Hsave as <-.
  - rewrite timeline_page_falsy in Hp by done. by injection Hp as <-.
Qed.

(** X10: a search session writes files only when [save_format] is exactly
    ['csv'], a timeline session only when it is ['csv'] or ['json']; with
    any other format string (and, for a search, with ['json']) no file is
    written or changed, whatever the remote serves.  The timeline session
    makes its directory all the same, before the loop and whatever the
    format, and touches no other path. *)
Theorem writes_only_known_formats `{Twalc} (client : Client) (fields : list string)
    (handle dir fmt : string) (output_handle : bool) (handle_col : string)
    (tweets_per_query : Z) (fs : files) :
  fmt ≠ "csv" →
  (∀ total cap, out (TweetSearch.pull client fields dir fmt fs total cap).2 = fs)
  ∧ (fmt ≠ "json" →
     ∀ user t fuel e st,
       (Timeline.pull client fields handle dir fmt output_handle handle_col
          tweets_per_query user t fs fuel).1 = Some (e, st) →
       out st = fs)
  ∧ (∀ user_id t fuel,
       t !! dir = Some Directory → t !! Timeline.save_dir handle dir = None →
       (Timeline.pull client fields handle dir fmt output_handle handle_col
          tweets_per_query (Ok user_id) t fs fuel).2
       = <[Timeline.save_dir handle dir := Directory]> t)
  ∧ (∀ user t fuel,
       (Timeline.pull client fields handle dir fmt output_handle handle_col
          tweets_per_query user t fs fuel).2 = t
       ∨ (t !! Timeline.save_dir handle dir = None
          ∧ (Timeline.pull client fields handle dir fmt output_handle handle_col
               tweets_per_query user t fs fuel).2
            = <[Timeline.save_dir handle dir := Directory]> t)).
Proof.
  intros Hcsv. split_and!.
  - intros total cap.
    apply (search_pull_invariant client fields dir fmt (λ st, out st = fs));
      [done|done| | |done].
    + intros st r st' <- Hp. by eapply search_page_no_csv.
    + intros st r e st' <- Hb. by apply search_page_raised in Hb as (_ & _ & -> & _).
  - intros Hjson user t fuel e st Hpull.
    eapply (timeline_pull_invariant client fields handle dir output_handle handle_col
              tweets_per_query fmt (λ st, out st = fs)); [done|done| |done|exact Hpull].
    intros st0 r st1 <- Hp. by eapply timeline_page_no_output.
  - intros user_id t fuel Hdir Hfree. by rewrite timeline_pull_runs.
  - intros user t fuel.
    destruct (Timeline.pull client fields handle dir fmt output_handle handle_col
                tweets_per_query user t fs fuel) as [r t'] eqn:Hrun.
    apply timeline_pull_cases in Hrun as [[-> _]|(Hfree & -> & _)]; [by left|by right].
Qed.

Lemma writes_only_known_formats_witness :
  out (@TweetSearch.pull plain_twalc two_pages [] "out" "CSV" ∅ 250 100).2 = ∅
  ∧ (@Timeline.pull plain_twalc two_pages [] "nasa" "out" "CSV" false "handle" 100
       (Ok 11348282) only_out ∅ 2).2
    = <["out/nasa" := Directory]> only_out.
Proof.
  destruct (@writes_only_known_formats plain_twalc two_pages [] "nasa" "out" "CSV"
              false "handle" 100 ∅) as (Hsearch & _ & Hdir & _); [discriminate|].
  split; [apply Hsearch|]. by apply Hdir.
Defined.

(** X11: a search session with [save_format] ['json'] never counts a
    tweet and never writes a file: every page that has tweets makes the
    iteration raise (at the latest in the saving block, whose [json]
    branch tests a name that is not bound) before the counter is advanced
    and before anything is written. *)
Theorem search_json_collects_nothing `{Twalc} (client : Client) (fields : list string)
    (dir : string) (fs : files) (total cap : Z) :
  (∀ st r, truthy (data r) = true →
           ∃ e st', TweetSearch.page_body fields dir "json" st r = (Some e, st')
                    ∧ num_collected st' = num_collected st
                    ∧ out st' = out st)
  ∧ num_collected (TweetSearch.pull client fields dir "json" fs total cap).2 = 0%nat
  ∧ out (TweetSearch.pull client fields dir "json" fs total cap).2 = fs.
Proof.
  split.
  - intros st r Ht. destruct (search_page_json fields dir st r Ht) as [e He].
    destruct (TweetSearch.page_body fields dir "json" st r) as [[e0|] st'] eqn:Hb.
    + exists e0, st'. split; [done|].
      by apply search_page_raised in Hb as (_ & -> & -> & _).
    + apply search_page_body_None in Hb. by rewrite Hb in He.
  - apply (search_pull_invariant client fields dir "json"
             (λ st, num_collected st = 0%nat ∧ out st = fs)); [done|done| | |done].
    + intros st r st' Hst Hp. destruct (truthy (data r)) eqn:Ht.
      * destruct (search_page_json fields dir st r Ht) as [e He]. by rewrite He in Hp.
      * rewrite search_page_falsy in Hp by done. by injection Hp as <-.
    + intros st r e st' [Hn Ho] Hb.
      by apply search_page_raised in Hb as (_ & -> & -> & _).
Qed.

Lemma write_keeps (fmt : format) (path p : string) (df : option DataFrame)
    (fs fs' : files) :
  write fmt path df fs = Ok fs' → is_Some (fs !! p) → is_Some (fs' !! p).
Proof.
  unfold write. destruct df as [d|]; [|done]. intros [= <-] Hp.
  destruct (decide (path = p)) as [->|Hne].
  - rewrite lookup_insert_eq. by eexists.
  - by rewrite lookup_insert_ne.
Qed.

Lemma write_if_keeps (b : bool) (fmt : format) (path p : string)
    (df : option DataFrame) (fs fs' : files) :
  write_if b fmt path df fs = Ok fs' → is_Some (fs !! p) → is_Some (fs' !! p).
Proof. unfold write_if. destruct b; [apply write_keeps|]. by intros [= <-]. Qed.

Lemma search_page_keeps `{Twalc} (fields : list string) (dir fmt : string)
    (st st' : Session) (r : Response) (p : string) :
  TweetSearch.page fields dir fmt st r = Ok st' →
  is_Some (out st !! p) → is_Some (out st' !! p).
Proof.
  intros Hp Hsome. destruct (truthy (data r)) eqn:Ht.
  - apply search_page_Ok in Hp as (links & _ & _ & _ & _ & _ & _ & Hsave & _); [|done].
    unfold TweetSearch.save in Hsave. repeat case_decide; try done.
    + apply bind_Ok in Hsave as (fs1 & W1 & Hsave).
      apply bind_Ok in Hsave as (fs2 & W2 & Hsave).
      apply bind_Ok in Hsave as (fs3 & W3 & Hsave).
      apply bind_Ok in Hsave as (fs4 & W4 & W5).
      eapply write_keeps; [exact W5|]. eapply write_if_keeps; [exact W4|].
      eapply write_if_keeps; [exact W3|]. eapply write_if_keeps; [exact W2|].
      by eapply write_if_keeps.
    + by injection Hsave as <-.
  - rewrite search_page_falsy in Hp by done. by injection Hp as <-.
Qed.

Lemma timeline_page_keeps `{Twalc} (fields : list string)
    (handle dir fmt : string) (output_handle : bool) (handle_col : string)
    (st st' : Session) (r : Response) (p : string) :
  Timeline.page fields handle dir fmt output_handle handle_col st r = Ok st' →
  is_Some (out st !! p) → is_Some (out st' !! p).
Proof.
  intros Hp Hsome. destruct (truthy (data r)) eqn:Ht.
  - apply timeline_page_Ok in Hp
      as (links & tweets & _ & _ & _ & _ & _ & _ & _ & _ & _ & _ & _ & Hsave); [|done].
    unfold Timeline.save in Hsave. repeat case_decide.
    + apply bind_Ok in Hsave as (fs1 & W1 & Hsave).
      apply bind_Ok in Hsave as (fs2 & W2 & Hsave).
      apply bind_Ok in Hsave as (fs3 & W3 & W4).
      eapply write_keeps; [exact W4|]. eapply write_if_keeps; [exact W3|].
      eapply write_if_keeps; [exact W2|]. by eapply write_if_keeps.
    + apply bind_Ok in Hsave as (fs1 & W1 & Hsave).
      apply bind_Ok in Hsave as (fs2 & W2 & Hsave).
      apply bind_Ok in Hsave as (fs3 & W3 & W4).
      eapply write_keeps; [exact W4|]. eapply write_if_keeps; [exact W3|].
      eapply write_if_keeps; [exact W2|]. by eapply write_if_keeps.
    + by injection Hsave as <-.
  - rewrite timeline_page_falsy in Hp by done. by injection Hp as <-.
Qed.

(** X12: neither kind of session ever removes a file: whatever was in the
    output directory before is still there (possibly overwritten) when the
    session ends, however it ends and in whatever format. *)
Theorem sessions_never_remove_files `{Twalc} (client : Client) (fields : list string)
    (handle dir fmt : string) (output_handle : bool) (handle_col : string)
    (tweets_per_query : Z) (fs : files) (path : string) :
  is_Some (fs !! path) →
  (∀ total cap,
     is_Some (out (TweetSearch.pull client fields dir fmt fs total cap).2 !! path))
  ∧ (∀ user t fuel e st,
       (Timeline.pull client fields handle dir fmt output_handle handle_col
          tweets_per_query user t fs fuel).1 = Some (e, st) →
       is_Some (out st !! path)).
Proof.
  intros Hsome. split.
  - intros total cap.
    apply (search_pull_invariant client fields dir fmt (λ st, is_Some (out st !! path)));
      [done|done| | |done].
    + intros st r st' Hst Hp. by eapply search_page_keeps.
    + intros st r e st' Hst Hb. by apply search_page_raised in Hb as (_ & _ & -> & _).
  - intros user t fuel e st Hpull.
    eapply (timeline_pull_invariant client fields handle dir output_handle handle_col
              tweets_per_query fmt (λ st, is_Some (out st !! path)));
      [done|done| |exact Hsome|exact Hpull].
    intros st0 r st1 Hst Hp. by eapply timeline_page_keeps.
Qed.

Lemma sessions_never_remove_files_witness :
  is_Some
    (out (@TweetSearch.pull plain_twalc two_pages [] "out" "csv"
            {[ "out/data_tweets.csv" := (CsvQuoteAll, mkDF [] []);
               "out/notes.txt" := (CsvQuoteAll, mkDF [] []) ]} 250 100).2
     !! "out/notes.txt").
Proof.
  apply (@sessions_never_remove_files plain_twalc two_pages [] "nasa" "out" "csv"
           false "handle" 100).
  by eexists.
Defined.

Section search_counts.
Context `{Twalc}.
Variable client : Client.
Variable fields : list string.
Variables dir fmt : string.

Lemma search_loop_counts (batches : list Z) (st : Session) :
  (fetches st ≤ fetches (TweetSearch.loop client fields dir fmt batches st).2
   ≤ fetches st + length batches)%nat
  ∧ (calls st + (fetches (TweetSearch.loop client fields dir fmt batches st).2 - fetches st)
     ≤ calls (TweetSearch.loop client fields dir fmt batches st).2
     ≤ calls st
       + 5 * (fetches (TweetSearch.loop client fields dir fmt batches st).2 - fetches st))%nat.
Proof.
  revert st. induction batches as [|batch rest IH]; intros st; simpl; [lia|].
  pose proof (retry_loop_calls client (mkRequest batch (next_token st)) 5 (calls st))
    as Hcalls.
  unfold search_tweets, max_retries.
  destruct (retry_loop client (mkRequest batch (next_token st)) 5 (calls st))
    as [r calls']. simpl in Hcalls.
  assert (∀ st1, fetches st1 = S (fetches st) → calls st1 = calls' →
    (fetches st ≤ fetches (TweetSearch.loop client fields dir fmt rest st1).2
     ≤ fetches st + S (length rest))%nat
    ∧ (calls st + (fetches (TweetSearch.loop client fields dir fmt rest st1).2 - fetches st)
       ≤ calls (TweetSearch.loop client fields dir fmt rest st1).2
       ≤ calls st
         + 5 * (fetches (TweetSearch.loop client fields dir fmt rest st1).2 - fetches st))%nat)
    as Hrest.
  { intros st1 Hf Hc. specialize (IH st1). rewrite Hf, Hc in IH. lia. }
  destruct r as [[response|]|e].
  - destruct (TweetSearch.page_body fields dir fmt (fetched calls' st) response)
      as [[e|] st'] eqn:Hb; simpl.
    + apply search_page_raised in Hb as (_ & _ & _ & Hc & Hf). simpl in Hc, Hf. lia.
    + apply search_page_body_None, search_page_counters in Hb as (_ & Hc & Hf).
      simpl in Hc, Hf.
      destruct (meta_next_token response); simpl; [by apply Hrest|lia].
  - simpl. lia.
  - destruct e; simpl; try lia; by apply Hrest.
Qed.

Lemma search_loop_Aborted (batches : list Z) (st : Session) (e : exn) :
  (TweetSearch.loop client fields dir fmt batches st).1 = Aborted e →
  e ≠ TwitterServerError ∧ ¬ passed_over e.
Proof.
  revert st. induction batches as [|batch rest IH]; intros st; simpl; [done|].
  unfold search_tweets, max_retries.
  destruct (retry_loop client (mkRequest batch (next_token st)) 5 (calls st))
    as [r calls'] eqn:Hr.
  destruct r as [[response|]|e0].
  - destruct (TweetSearch.page_body fields dir fmt (fetched calls' st) response)
      as [[e1|] st'] eqn:Hb; simpl.
    + intros [= <-]. unfold passed_over.
      apply search_page_body_Some, search_page_Raise in Hb as [->|[->|[->| ->]]];
        split; try done; by intros [?|?].
    + destruct (meta_next_token response); [apply IH|done].
  - simpl. intros [= <-]. unfold passed_over. split; [done|]. by intros [?|?].
  - apply retry_loop_Raise in Hr as [Hne _].
    destruct e0; simpl; try apply IH; intros [= <-]; unfold passed_over;
      (split; [done|]); by intros [?|?].
Qed.

Lemma search_loop_passed_over (e : exn) (batches : list Z) (st : Session) :
  passed_over e → (∀ n request, client n request = Throws e) →
  TweetSearch.loop client fields dir fmt batches st
  = (Done,
     mkSession (next_token st) (num_collected st) (df_links st) (df_refs st)
       (df_users st) (df_tweets st) (df_media st) (out st)
       (calls st + length batches) (fetches st + length batches)).
Proof.
  intros Hover Hclient. revert st.
  induction batches as [|batch rest IH]; intros st; simpl.
  - rewrite !Nat.add_0_r. by destruct st.
  - unfold search_tweets, max_retries. simpl. rewrite Hclient.
    destruct Hover as [-> | ->]; rewrite IH; simpl; f_equal; f_equal; lia.
Qed.

Lemma search_loop_chain (before : list Response) (last : Response) :
  Forall (λ r, is_Some (meta_next_token r)) before →
  meta_next_token last = None →
  ∀ (batches : list Z) (st st' : Session),
    serves_chain client (calls st) (next_token st) batches (before ++ [last]) →
    search_merge_all fields dir fmt st (before ++ [last]) = Ok st' →
    TweetSearch.loop client fields dir fmt batches st = (Done, st')
    ∧ fetches st' = (fetches st + length (before ++ [last]))%nat.
Proof.
  intros Hbefore Hlast. induction Hbefore as [|r before [token Hr] _ IH];
    intros batches st st' Hserves Hmerge.
  - destruct batches as [|batch rest]; [done|]. destruct Hserves as [Hc _].
    simpl in Hmerge. apply bind_Ok in Hmerge as (st1 & Hp & Hmerge).
    injection Hmerge as <-.
    simpl. unfold search_tweets, max_retries.
    rewrite (retry_loop_responds _ _ _ _ last) by apply Hc.
    rewrite (proj2 (search_page_body_None _ _ _ _ _ _) Hp), Hlast. split; [done|].
    apply search_page_counters in Hp as (_ & _ & Hf). simpl in *. lia.
  - destruct batches as [|batch rest]; [done|]. destruct Hserves as [Hc Hserves].
    simpl in Hmerge. apply bind_Ok in Hmerge as (st1 & Hp & Hmerge).
    pose proof (search_page_counters _ _ _ _ _ _ Hp) as (_ & Hcalls & Hf).
    destruct (IH rest (advance (meta_next_token r) st1) st') as [Hloop Hfetches].
    { simpl. rewrite Hcalls. exact Hserves. }
    { exact Hmerge. }
    simpl. unfold search_tweets, max_retries.
    rewrite (retry_loop_responds _ _ _ _ r) by apply Hc.
    rewrite (proj2 (search_page_body_None _ _ _ _ _ _) Hp), Hr.
    rewrite Hr in Hloop, Hfetches. split; [exact Hloop|].
    rewrite Hfetches. simpl in *. lia.
Qed.

End search_counts.

Lemma plan_Raise (total cap : Z) (e : exn) :
  plan total cap = Raise e → e = ZeroDivisionError ∨ e = IndexError.
Proof.
  destruct (decide (cap = 0)) as [->|Hc].
  { rewrite plan_zero_cap. intros [= <-]. by left. }
  destruct (decide (total `div` cap < 0)) as [Hq|Hq].
  - rewrite plan_negative_quotient by done. intros [= <-]. by right.
  - by rewrite plan_closed_form_quotient by (done || lia).
Qed.

(** X13: a search for a total that is not negative with a positive batch
    size makes at most [total // batch_size + 1] fetch cycles, and each
    cycle costs between one and five calls of the client: the session
    never makes more than five calls per planned batch. *)
Theorem search_call_budget `{Twalc} (client : Client) (fields : list string)
    (dir fmt : string) (fs : files) (total cap : Z) :
  0 ≤ total → 0 < cap →
  Z.of_nat (fetches (TweetSearch.pull client fields dir fmt fs total cap).2)
  ≤ total `div` cap + 1
  ∧ (fetches (TweetSearch.pull client fields dir fmt fs total cap).2
     ≤ calls (TweetSearch.pull client fields dir fmt fs total cap).2
     ≤ 5 * fetches (TweetSearch.pull client fields dir fmt fs total cap).2)%nat.
Proof.
  intros Ht Hc. unfold TweetSearch.pull.
  assert (0 ≤ total `div` cap) as Hq by (apply Z.div_pos; lia).
  rewrite plan_closed_form_quotient by lia.
  pose proof (search_loop_counts client fields dir fmt (plan_shape total cap) (start fs))
    as [Hf Hcalls].
  pose proof (plan_shape_length total cap Hq) as Hlen.
  simpl in Hf, Hcalls. lia.
Qed.

Lemma search_call_budget_witness :
  Z.of_nat (fetches (@TweetSearch.pull plain_twalc server_down [] "out" "csv" ∅ 250 100).2)
  ≤ 250 `div` 100 + 1
  ∧ (fetches (@TweetSearch.pull plain_twalc server_down [] "out" "csv" ∅ 250 100).2
     ≤ calls (@TweetSearch.pull plain_twalc server_down [] "out" "csv" ∅ 250 100).2
     ≤ 5 * fetches (@TweetSearch.pull plain_twalc server_down [] "out" "csv" ∅ 250 100).2)%nat.
Proof. apply (@search_call_budget plain_twalc); lia. Defined.

(** X14: the search loop asks for the planned batch sizes in order and
    sends with each request the cursor of the page before ([None] first):
    a remote that answers only these very requests, with pages of which
    the last alone has a null cursor and whose merging raises nothing, is
    read to its end, one fetch cycle per page. *)
Theorem search_requests_follow_plan `{Twalc} (client : Client) (fields : list string)
    (dir fmt : string) (fs : files) (total cap : Z) (batches : list Z)
    (pages : list Response) (st' : Session) :
  plan total cap = Ok batches →
  serves_chain client 0 None batches pages →
  ends_with_null_cursor pages →
  search_merge_all fields dir fmt (start fs) pages = Ok st' →
  TweetSearch.pull client fields dir fmt fs total cap = (Done, st')
  ∧ fetches st' = length pages.
Proof.
  intros Hplan Hchain (before & last & -> & Hbefore & Hlast) Hmerge.
  unfold TweetSearch.pull. rewrite Hplan.
  by destruct (search_loop_chain client fields dir fmt before last Hbefore Hlast
                 batches (start fs) st').
Qed.

Lemma search_requests_follow_plan_witness :
  ∃ st', @TweetSearch.pull plain_twalc strict_two_pages [] "out" "csv" ∅ 250 100
         = (Done, st')
         ∧ fetches st' = 2%nat.
Proof.
  destruct (@search_merge_all plain_twalc [] "out" "csv" (start ∅)
              [ mkResponse (Some [[("id", VInt 1)]]) None None None (Some "page2");
                mkResponse (Some [[("id", VInt 2)]]) None None None None ])
    as [st'|e] eqn:Hmerge; [|discriminate Hmerge].
  exists st'.
  apply (@search_requests_follow_plan plain_twalc strict_two_pages [] "out" "csv" ∅
           250 100 [100; 100; 50]
           [ mkResponse (Some [[("id", VInt 1)]]) None None None (Some "page2");
             mkResponse (Some [[("id", VInt 2)]]) None None None None ] st').
  - reflexivity.
  - simpl. split; [reflexivity|]. split; [reflexivity|exact I].
  - exists [mkResponse (Some [[("id", VInt 1)]]) None None None (Some "page2")],
      (mkResponse (Some [[("id", VInt 2)]]) None None None None).
    split; [reflexivity|]. split; [|reflexivity].
    apply Forall_cons. split; [by eexists|constructor].
  - exact Hmerge.
Defined.

(** X15: when every call of the client raises
    [EmptyTwitterResponseException] or [MaxRetries], a search session
    passes over every planned batch and ends normally: one fetch cycle
    and one call per batch, the cursor still [None], nothing collected,
    no table, no file written. *)
Theorem passed_over_exhausts_plan `{Twalc} (client : Client) (fields : list string)
    (dir fmt : string) (fs : files) (total cap : Z) (batches : list Z) (e : exn) :
  passed_over e →
  (∀ n request, client n request = Throws e) →
  plan total cap = Ok batches →
  TweetSearch.pull client fields dir fmt fs total cap
  = (Done, mkSession None 0 None None None None None fs (length batches) (length batches)).
Proof.
  intros Hover Hclient Hplan. unfold TweetSearch.pull. rewrite Hplan.
  by rewrite (search_loop_passed_over client fields dir fmt e).
Qed.

Lemma passed_over_exhausts_plan_witness :
  @TweetSearch.pull plain_twalc always_empty [] "out" "csv" ∅ 250 100
  = (Done, mkSession None 0 None None None None None ∅ 3 3).
Proof.
  apply (@passed_over_exhausts_plan plain_twalc always_empty [] "out" "csv" ∅ 250 100
           [100; 100; 50] EmptyTwitterResponseException).
  - by left.
  - reflexivity.
  - reflexivity.
Defined.

(** X16: when a search session is left by an exception, that exception is
    never tweepy's server error (it is retried, and five of them in a row
    surface as an [AttributeError]) and never one of the two project
    exceptions the loop passes over. *)
Theorem search_abort_causes `{Twalc} (client : Client) (fields : list string)
    (dir fmt : string) (fs : files) (total cap : Z) (e : exn) :
  (TweetSearch.pull client fields dir fmt fs total cap).1 = Aborted e →
  e ≠ TwitterServerError ∧ ¬ passed_over e.
Proof.
  unfold TweetSearch.pull. destruct (plan total cap) as [batches|e0] eqn:Hplan.
  - apply search_loop_Aborted.
  - simpl. intros [= <-]. unfold passed_over.
    apply plan_Raise in Hplan as [-> | ->]; (split; [done|]); by intros [?|?].
Qed.

Lemma search_abort_causes_witness :
  AttributeError ≠ TwitterServerError ∧ ¬ passed_over AttributeError.
Proof.
  apply (@search_abort_causes plain_twalc server_down [] "out" "csv" ∅ 250 100).
  reflexivity.
Defined.

(** ** Merging the same records again *)

(** X17: merging the records of a page a second time changes nothing:
    whatever table was accumulated before, the table that results from
    merging some records is left exactly as it is, columns and rows, when
    the same records are merged into it again. *)
Theorem search_merge_idempotent (df : option DataFrame) (records : list dict)
    (d : DataFrame) :
  TweetSearch.merge df (pd.DataFrame records) = Ok d →
  TweetSearch.merge (Some d) (pd.DataFrame records) = Ok d.
Proof.
  intros Hmerge.
  pose proof (search_merge_tidy _ _ _ Hmerge) as (Hcols & Hrect & Hhash).
  assert (columns (pd.DataFrame records) ⊆ columns d) as Hsub.
  { unfold TweetSearch.merge in Hmerge.
    apply drop_duplicates_Ok in Hmerge as (-> & _ & _).
    destruct df as [old|]; simpl; [|done].
    intros c Hc. apply elem_of_uniq, elem_of_app. by right. }
  assert (pd.reindex (columns d) (pd.DataFrame records) ⊆ rows d) as Hnew.
  { rewrite reindex_DataFrame. intros row (record & -> & Hin)%list_elem_of_fmap.
    by apply (merge_holds_record df records record d). }
  unfold TweetSearch.merge. simpl. unfold pd.concat_axis0.
  rewrite uniq_app_subseteq by done.
  rewrite reindex_own_columns by done.
  unfold pd.drop_duplicates. simpl.
  assert (rows d ++ pd.reindex (columns d) (pd.DataFrame records) ⊆ rows d) as Hall.
  { intros row [?|?]%elem_of_app; [done|by apply Hnew]. }
  rewrite (forallb_hashable_subseteq _ (rows d) Hall Hhash).
  rewrite uniq_app_subseteq; [by destruct d| |done].
  by apply drop_duplicates_Ok in Hmerge as (_ & _ & ?).
Qed.

Lemma search_merge_idempotent_witness :
  TweetSearch.merge
    (Some (mkDF ["id"; "followers"] [[VInt 7; VInt 10]; [VInt 8; VInt 3]]))
    (pd.DataFrame [[("id", VInt 8); ("followers", VInt 3)]])
  = Ok (mkDF ["id"; "followers"] [[VInt 7; VInt 10]; [VInt 8; VInt 3]]).
Proof.
  apply (search_merge_idempotent
           (Some (mkDF ["id"; "followers"] [[VInt 7; VInt 10]]))).
  reflexivity.
Defined.

(** ** Timeline sessions, in general *)

Lemma timeline_loop_passed_over `{Twalc} (client : Client) (fields : list string)
    (handle dir fmt : string) (output_handle : bool) (handle_col : string)
    (tweets_per_query : Z) (e : exn) :
  passed_over e → (∀ n request, client n request = Throws e) →
  ∀ fuel st,
    Timeline.loop client fields handle dir fmt output_handle handle_col
      tweets_per_query fuel st = None.
Proof.
  intros Hover Hclient. induction fuel as [|fuel IH]; intros st; simpl; [done|].
  unfold get_tweets, max_retries. simpl. rewrite Hclient.
  destruct Hover as [-> | ->]; apply IH.
Qed.

(** X18: when every call of the client raises
    [EmptyTwitterResponseException] or [MaxRetries], a timeline session
    never ends: the [while not finished] loop passes over the failed
    fetch and tries again with the same cursor, for ever (the model runs
    out of fuel whatever fuel it is given), its directory made.  A search
    session ends in the same situation, its loop being bounded by the
    plan. *)
Theorem timeline_retries_for_ever `{Twalc} (client : Client) (fields : list string)
    (handle dir fmt : string) (output_handle : bool) (handle_col : string)
    (tweets_per_query user_id : Z) (t : tree) (fs : files) (e : exn) :
  passed_over e →
  (∀ n request, client n request = Throws e) →
  t !! dir = Some Directory →
  t !! Timeline.save_dir handle dir = None →
  ∀ fuel,
    Timeline.pull client fields handle dir fmt output_handle handle_col
      tweets_per_query (Ok user_id) t fs fuel
    = (None, <[Timeline.save_dir handle dir := Directory]> t).
Proof.
  intros Hover Hclient Hdir Hfree fuel. rewrite timeline_pull_runs by done.
  by rewrite (timeline_loop_passed_over client fields handle dir fmt output_handle
                handle_col tweets_per_query e).
Qed.

Lemma timeline_retries_for_ever_witness :
  @Timeline.pull plain_twalc always_empty [] "nasa" "out" "csv" false "handle" 100
    (Ok 11348282) only_out ∅ 1000
  = (None, <["out/nasa" := Directory]> only_out).
Proof.
  apply (@timeline_retries_for_ever plain_twalc always_empty [] "nasa" "out" "csv"
           false "handle" 100 11348282 only_out ∅ EmptyTwitterResponseException).
  - by left.
  - reflexivity.
  - reflexivity.
  - reflexivity.
Defined.


Section timeline_json.
Context `{Twalc}.
Variable client : Client.
Variable fields : list string.
Variables handle output_dir : string.
Variable output_handle : bool.
Variable handle_col : string.
Variable tweets_per_query : Z.
Variable fs : files.

Local Abbreviation dir := (Timeline.save_dir handle output_dir).


End timeline_json.



(** ** Reaction counts *)

(** X20: [_get_reaction_counts] returns exactly when the tweet's
    [public_metrics] is a dict that has the four counts, and then renames
    them to [likes], [retweets], [replies], [quotes]; it raises
    [AttributeError] exactly when the attribute is missing, [TypeError]
    exactly when the attribute is not a dict, and [KeyError] exactly when
    it is a dict that lacks one of the four counts. *)
Theorem get_reaction_counts_cases (tweet : dict) :
  (∀ counts, _get_reaction_counts tweet = Ok counts ↔
     ∃ metrics likes retweets replies quotes,
       dict_get "public_metrics" tweet = Some (VDict metrics)
       ∧ dict_get "like_count" metrics = Some likes
       ∧ dict_get "retweet_count" metrics = Some retweets
       ∧ dict_get "reply_count" metrics = Some replies
       ∧ dict_get "quote_count" metrics = Some quotes
       ∧ counts = [("likes", likes); ("retweets", retweets);
                   ("replies", replies); ("quotes", quotes)])
  ∧ (_get_reaction_counts tweet = Raise AttributeError ↔
     dict_get "public_metrics" tweet = None)
  ∧ (_get_reaction_counts tweet = Raise TypeError ↔
     ∃ v, dict_get "public_metrics" tweet = Some v ∧ ∀ metrics, v ≠ VDict metrics)
  ∧ (_get_reaction_counts tweet = Raise KeyError ↔
     ∃ metrics, dict_get "public_metrics" tweet = Some (VDict metrics)
       ∧ ¬ (has_key "like_count" metrics ∧ has_key "retweet_count" metrics
            ∧ has_key "reply_count" metrics ∧ has_key "quote_count" metrics)).
Proof.
  unfold _get_reaction_counts, getattr, has_key.
  destruct (dict_get "public_metrics" tweet) as [v|] eqn:Hattr; simpl.
  2:{ split_and!; split; try done.
      - by intros (? & ? & ? & ? & ? & ? & _).
      - by intros (? & ? & _).
      - by intros (? & ? & _). }
  assert ((∀ metrics, v ≠ VDict metrics) →
          (likes ← getitem v "like_count"; retweets ← getitem v "retweet_count";
           replies ← getitem v "reply_count"; quotes ← getitem v "quote_count";
           Ok [("likes", likes); ("retweets", retweets); ("replies", replies);
               ("quotes", quotes)]) = Raise TypeError) as Hnodict.
  { intros Hv. destruct v; try done. by destruct (Hv d). }
  assert ((∃ metrics, v = VDict metrics) ∨ ¬ (∃ metrics, v = VDict metrics))
    as [[metrics ->]|Hno].
  { destruct v; try (right; by intros [? ?]). left. by eexists. }
  2:{ rewrite Hnodict by (intros m ->; apply Hno; by eexists).
      split_and!; split; try done.
      - intros (m & ? & ? & ? & ? & [= ->] & _). exfalso. apply Hno. by eexists.
      - intros _. exists v. split; [done|]. intros m ->. apply Hno. by eexists.
      - intros (m & [= ->] & _). exfalso. apply Hno. by eexists. }
  clear Hnodict. simpl. unfold subscript.
  destruct (dict_get "like_count" metrics) as [likes|] eqn:H1; simpl;
    [destruct (dict_get "retweet_count" metrics) as [retweets|] eqn:H2; simpl;
     [destruct (dict_get "reply_count" metrics) as [replies|] eqn:H3; simpl;
      [destruct (dict_get "quote_count" metrics) as [quotes|] eqn:H4; simpl|]|]|].
  - split_and!; split; try done.
    + intros [= <-]. by exists metrics, likes, retweets, replies, quotes.
    + intros (m & l & rt & rp & q & [= <-] & Hl & Hrt & Hrp & Hq & ->).
      by simplify_eq.
    + intros (x & [= <-] & Hx). by destruct (Hx metrics).
    + intros (m & [= <-] & Hm). destruct Hm. split_and!; by eexists.
  - split_and!; split; try done.
    + intros (m & l & rt & rp & q & [= <-] & Hl & Hrt & Hrp & Hq & _). by simplify_eq.
    + intros (x & [= <-] & Hx). by destruct (Hx metrics).
    + intros _. exists metrics. split; [done|].
      intros (_ & _ & _ & [? ?]). by simplify_eq.
  - split_and!; split; try done.
    + intros (m & l & rt & rp & q & [= <-] & Hl & Hrt & Hrp & Hq & _). by simplify_eq.
    + intros (x & [= <-] & Hx). by destruct (Hx metrics).
    + intros _. exists metrics. split; [done|].
      intros (_ & _ & [? ?] & _). by simplify_eq.
  - split_and!; split; try done.
    + intros (m & l & rt & rp & q & [= <-] & Hl & Hrt & Hrp & Hq & _). by simplify_eq.
    + intros (x & [= <-] & Hx). by destruct (Hx metrics).
    + intros _. exists metrics. split; [done|].
      intros (_ & [? ?] & _). by simplify_eq.
  - split_and!; split; try done.
    + intros (m & l & rt & rp & q & [= <-] & Hl & Hrt & Hrp & Hq & _). by simplify_eq.
    + intros (x & [= <-] & Hx). by destruct (Hx metrics).
    + intros _. exists metrics. split; [done|].
      intros ([? ?] & _). by simplify_eq.
Qed.

(** ** The output directory of a run *)

Lemma append_ne_self (s x : string) (c : ascii) : s +:+ String c x ≠ s.
Proof.
  assert (∀ a b : string, String.length (a +:+ b) = (String.length a + String.length b)%nat)
    as Hlen by (intros a b; induction a as [|c' a IH]; simpl; [done|by rewrite IH]).
  intros Heq. apply (f_equal String.length) in Heq. rewrite Hlen in Heq. simpl in Heq. lia.
Qed.

Lemma exists_true (path : string) (t : tree) :
  os.exists_ path t = true ↔ is_Some (t !! path).
Proof. unfold os.exists_. apply bool_decide_eq_true. Qed.

Lemma exists_false (path : string) (t : tree) :
  os.exists_ path t = false ↔ t !! path = None.
Proof.
  unfold os.exists_. rewrite bool_decide_eq_false.
  by rewrite <- eq_None_not_Some.
Qed.

Lemma isdir_true (path : string) (t : tree) :
  os.isdir path t = true ↔ t !! path = Some Directory.
Proof. unfold os.isdir. apply bool_decide_eq_true. Qed.

(** The second step, once the subcommand directory is there. *)
Lemma makedirs_leaf (leaf sub above : string) (t : tree) :
  t !! sub = Some Directory →
  os.makedirs leaf [sub; above] false t
  = if os.exists_ leaf t then (Some FileExistsError, t)
    else (None, <[leaf := Directory]> t).
Proof.
  intros Hsub. simpl.
  rewrite (proj2 (exists_true sub t)) by (by rewrite Hsub).
  unfold os.mkdir. simpl. rewrite Hsub. by destruct (os.exists_ leaf t).
Qed.

(** X21: when [create_output_dir] returns, it returns the path
    [output_dir/subcomm/timestamp]; that path named nothing before and
    is a directory now, as is [output_dir/subcomm]; and nothing else in
    the file system has changed. *)
Theorem create_output_dir_makes_fresh_directory (output_dir subcomm timestamp : string)
    (t t' : tree) (path : string) :
  create_output_dir output_dir subcomm timestamp t = (Ok path, t') →
  path = (output_dir +:+ "/" +:+ subcomm) +:+ "/" +:+ timestamp
  ∧ t !! path = None
  ∧ t' !! path = Some Directory
  ∧ t' !! (output_dir +:+ "/" +:+ subcomm) = Some Directory
  ∧ ∀ p, p ≠ path → p ≠ output_dir +:+ "/" +:+ subcomm → t' !! p = t !! p.
Proof.
  unfold create_output_dir.
  set (sub := output_dir +:+ "/" +:+ subcomm).
  set (leaf := sub +:+ "/" +:+ timestamp).
  assert (leaf ≠ sub) as Hne by apply append_ne_self.
  destruct (os.isdir sub t) eqn:Hdir.
  - apply isdir_true in Hdir. rewrite makedirs_leaf by done.
    destruct (os.exists_ leaf t) eqn:Hleaf; [done|]. apply exists_false in Hleaf.
    intros [= <- <-]. split_and!; try done.
    + by rewrite lookup_insert_eq.
    + by rewrite lookup_insert_ne.
    + intros p Hp _. by rewrite lookup_insert_ne.
  - unfold os.mkdir. destruct (os.exists_ sub t) eqn:Hsub; [done|].
    apply exists_false in Hsub.
    destruct (t !! output_dir) as [[|]|]; try done.
    rewrite makedirs_leaf by (by rewrite lookup_insert_eq).
    destruct (os.exists_ leaf (<[sub:=Directory]> t)) eqn:Hleaf; [done|].
    apply exists_false in Hleaf. rewrite lookup_insert_ne in Hleaf by done.
    intros [= <- <-]. split_and!; try done.
    + by rewrite lookup_insert_eq.
    + by rewrite lookup_insert_ne, lookup_insert_eq.
    + intros p Hp Hp'. by rewrite !lookup_insert_ne.
Qed.

Lemma create_output_dir_makes_fresh_directory_witness :
  "out/search/2022-03-01 10.00.00" = ("out" +:+ "/" +:+ "search") +:+ "/" +:+ "2022-03-01 10.00.00"
  ∧ ({[ "out" := Directory ]} : tree) !! "out/search/2022-03-01 10.00.00" = None
  ∧ ({[ "out/search/2022-03-01 10.00.00" := Directory; "out/search" := Directory;
        "out" := Directory ]} : tree) !! "out/search/2022-03-01 10.00.00" = Some Directory
  ∧ ({[ "out/search/2022-03-01 10.00.00" := Directory; "out/search" := Directory;
        "out" := Directory ]} : tree) !! ("out" +:+ "/" +:+ "search") = Some Directory
  ∧ ∀ p, p ≠ "out/search/2022-03-01 10.00.00" → p ≠ "out" +:+ "/" +:+ "search" →
         ({[ "out/search/2022-03-01 10.00.00" := Directory; "out/search" := Directory;
             "out" := Directory ]} : tree) !! p
         = ({[ "out" := Directory ]} : tree) !! p.
Proof.
  apply (create_output_dir_makes_fresh_directory "out" "search" "2022-03-01 10.00.00").
  reflexivity.
Defined.

(** X22: the directory of a run is named by the second it started in: a
    second call with the same subcommand and the same timestamp raises
    [FileExistsError] and changes nothing, while a call with another
    timestamp succeeds and adds just its own directory. *)
Theorem create_output_dir_again (output_dir subcomm timestamp : string)
    (t t' : tree) (path : string) :
  create_output_dir output_dir subcomm timestamp t = (Ok path, t') →
  create_output_dir output_dir subcomm timestamp t' = (Raise FileExistsError, t')
  ∧ ∀ later, later ≠ timestamp →
      t' !! ((output_dir +:+ "/" +:+ subcomm) +:+ "/" +:+ later) = None →
      create_output_dir output_dir subcomm later t'
      = (Ok ((output_dir +:+ "/" +:+ subcomm) +:+ "/" +:+ later),
         <[(output_dir +:+ "/" +:+ subcomm) +:+ "/" +:+ later := Directory]> t').
Proof.
  intros Hfirst.
  assert (t' !! (output_dir +:+ "/" +:+ subcomm) = Some Directory
          ∧ t' !! ((output_dir +:+ "/" +:+ subcomm) +:+ "/" +:+ timestamp) = Some Directory)
    as [Hsub Hleaf].
  { unfold create_output_dir in Hfirst. revert Hfirst.
    set (sub := output_dir +:+ "/" +:+ subcomm).
    set (leaf := sub +:+ "/" +:+ timestamp).
    assert (leaf ≠ sub) as Hne by apply append_ne_self.
    destruct (os.isdir sub t) eqn:Hdir.
    - apply isdir_true in Hdir. rewrite makedirs_leaf by done.
      destruct (os.exists_ leaf t); [done|]. intros [= _ <-].
      by rewrite lookup_insert_eq, lookup_insert_ne.
    - unfold os.mkdir. destruct (os.exists_ sub t); [done|].
      destruct (t !! output_dir) as [[|]|]; try done.
      rewrite makedirs_leaf by (by rewrite lookup_insert_eq).
      destruct (os.exists_ leaf (<[sub:=Directory]> t)); [done|]. intros [= _ <-].
      by rewrite lookup_insert_eq, lookup_insert_ne, lookup_insert_eq. }
  split.
  - unfold create_output_dir. rewrite (proj2 (isdir_true _ _) Hsub).
    rewrite makedirs_leaf by done.
    by rewrite (proj2 (exists_true _ t')) by (by rewrite Hleaf).
  - intros later Hlater Hfree. unfold create_output_dir.
    rewrite (proj2 (isdir_true _ _) Hsub). rewrite makedirs_leaf by done.
    by rewrite (proj2 (exists_false _ t')).
Qed.

Lemma create_output_dir_again_witness :
  create_output_dir "out" "search" "2022-03-01 10.00.00"
    ({[ "out/search/2022-03-01 10.00.00" := Directory; "out/search" := Directory;
        "out" := Directory ]} : tree)
  = (Raise FileExistsError,
     ({[ "out/search/2022-03-01 10.00.00" := Directory; "out/search" := Directory;
         "out" := Directory ]} : tree))
  ∧ ∀ later, later ≠ "2022-03-01 10.00.00" →
      ({[ "out/search/2022-03-01 10.00.00" := Directory; "out/search" := Directory;
          "out" := Directory ]} : tree) !! (("out" +:+ "/" +:+ "search") +:+ "/" +:+ later)
      = None →
      create_output_dir "out" "search" later
        ({[ "out/search/2022-03-01 10.00.00" := Directory; "out/search" := Directory;
            "out" := Directory ]} : tree)
      = (Ok (("out" +:+ "/" +:+ "search") +:+ "/" +:+ later),
         <[("out" +:+ "/" +:+ "search") +:+ "/" +:+ later := Directory]>
           ({[ "out/search/2022-03-01 10.00.00" := Directory; "out/search" := Directory;
               "out" := Directory ]} : tree)).
Proof.
  apply (create_output_dir_again "out" "search" "2022-03-01 10.00.00"
           ({[ "out" := Directory ]} : tree) _ "out/search/2022-03-01 10.00.00").
  reflexivity.
Defined.

(** ** [pull_search] *)

(** A plan that is not empty costs at least one fetch cycle. *)
Lemma search_loop_first_fetch `{Twalc} (client : Client) (fields : list string)
    (dir fmt : string) (batches : list Z) (st : Session) :
  batches ≠ [] →
  (fetches st < fetches (TweetSearch.loop client fields dir fmt batches st).2)%nat.
Proof.
  destruct batches as [|batch rest]; [done|]. intros _. simpl.
  destruct (search_tweets client (calls st) batch (next_token st)) as [r calls'].
  assert (∀ st1, fetches st1 = S (fetches st) →
            (fetches st < fetches (TweetSearch.loop client fields dir fmt rest st1).2)%nat)
    as Hrest.
  { intros st1 Hf.
    pose proof (search_loop_counts client fields dir fmt rest st1) as [Hlow _]. lia. }
  destruct r as [[response|]|e].
  - destruct (TweetSearch.page_body fields dir fmt (fetched calls' st) response)
      as [[e|] st'] eqn:Hb; simpl.
    + apply search_page_raised in Hb as (_ & _ & _ & _ & Hf). simpl in Hf. lia.
    + apply search_page_body_None, search_page_counters in Hb as (_ & _ & Hf).
      simpl in Hf.
      destruct (meta_next_token response); simpl; [by apply Hrest|lia].
  - simpl. lia.
  - destruct e; simpl; try lia; by apply Hrest.
Qed.

(** X23: [pull_search] makes no call of the client exactly when the
    batches cannot be planned, that is when [tweets_per_query] is 0 or
    [max_response // tweets_per_query] is negative; it then reports
    [ZeroDivisionError], respectively [IndexError], instead of raising
    it, and leaves the output directory as it was. *)
Theorem pull_search_without_call `{Twalc} (config : TwitterPullConfig) (client : Client)
    (fs : files) (max_response : Z) :
  (calls (pull_search config client fs max_response).2 = 0%nat
   ↔ config_tweets_per_query config = 0
     ∨ max_response `div` config_tweets_per_query config < 0)
  ∧ (config_tweets_per_query config = 0 →
     pull_search config client fs max_response = (Some ZeroDivisionError, start fs))
  ∧ (config_tweets_per_query config ≠ 0 →
     max_response `div` config_tweets_per_query config < 0 →
     pull_search config client fs max_response = (Some IndexError, start fs)).
Proof.
  unfold pull_search, TweetSearch.pull.
  destruct config as [fields dir cap]. simpl.
  destruct (decide (cap = 0)) as [->|Hc].
  { rewrite plan_zero_cap. simpl. split_and!; [|done|done]. split; [by left|done]. }
  destruct (decide (max_response `div` cap < 0)) as [Hq|Hq].
  { rewrite plan_negative_quotient by done. simpl.
    split_and!; [|done|done]. split; [by right|done]. }
  rewrite plan_closed_form_quotient by (done || lia).
  split_and!; [|done|done].
  pose proof (plan_shape_length max_response cap ltac:(lia)) as Hlen.
  assert (plan_shape max_response cap ≠ []) as Hne.
  { intros Hnil. rewrite Hnil in Hlen. simpl in Hlen. lia. }
  pose proof (search_loop_first_fetch client fields dir "csv" _ (start fs) Hne) as Hf.
  pose proof (search_loop_counts client fields dir "csv" (plan_shape max_response cap)
                (start fs)) as [_ Hcalls].
  destruct (TweetSearch.loop client fields dir "csv" (plan_shape max_response cap)
              (start fs)) as [ending st]. simpl in *.
  split; [lia|]. by intros [?|?].
Qed.

(** ** The handle column of a timeline session *)

Lemma rectangular_DataFrame (records : list dict) : rectangular (pd.DataFrame records).
Proof.
  intros row Hrow. unfold pd.DataFrame in *. simpl in *.
  apply list_elem_of_fmap in Hrow as (r & -> & _). by rewrite length_fmap.
Qed.

Lemma length_row_at (d : DataFrame) (i : nat) :
  rectangular d → length (pd.row_at d i) = length (columns d).
Proof.
  intros Hd. unfold pd.row_at. destruct (rows d !! i) as [row|] eqn:Hi; simpl.
  - apply Hd. by eapply list_elem_of_lookup_2.
  - by rewrite length_replicate.
Qed.

Lemma rectangular_concat_axis1 (a b : DataFrame) :
  rectangular a → rectangular b → rectangular (pd.concat_axis1 a b).
Proof.
  intros Ha Hb row Hrow. unfold pd.concat_axis1 in *. simpl in *.
  apply list_elem_of_fmap in Hrow as (i & -> & _).
  by rewrite !length_app, !length_row_at.
Qed.

Lemma rectangular_timeline_merge (df : option DataFrame) (records : list dict) :
  (∀ d, df = Some d → rectangular d) →
  rectangular (Timeline.merge df (pd.DataFrame records)).
Proof.
  intros Hdf. unfold Timeline.merge, concat_or_new. destruct df as [old|].
  - apply rectangular_concat_axis1; [by apply Hdf|apply rectangular_DataFrame].
  - apply rectangular_DataFrame.
Qed.

Lemma set_column_filled (col : string) (x : value) (d : DataFrame) :
  rectangular d → column_filled col x (pd.set_column col x d).
Proof.
  intros Hd. unfold pd.set_column. case_decide as Hcol; simpl.
  - split; [done|]. split.
    + intros row Hrow. simpl in *.
      apply list_elem_of_fmap in Hrow as (row0 & -> & Hrow0).
      rewrite length_zip_with, (Hd row0 Hrow0). lia.
    + intros row i Hrow Hi. simpl in *.
      apply list_elem_of_fmap in Hrow as (row0 & -> & Hrow0).
      rewrite lookup_zip_with, Hi. simpl.
      destruct (row0 !! i) as [v|] eqn:Hv; simpl.
      * by rewrite decide_True.
      * apply lookup_ge_None in Hv. apply lookup_lt_Some in Hi.
        rewrite (Hd row0 Hrow0) in Hv. lia.
  - split; [apply elem_of_app; right; by apply list_elem_of_singleton|]. split.
    + intros row Hrow. simpl in *.
      apply list_elem_of_fmap in Hrow as (row0 & -> & Hrow0).
      rewrite !length_app, (Hd row0 Hrow0). done.
    + intros row i Hrow Hi. simpl in *.
      apply list_elem_of_fmap in Hrow as (row0 & -> & Hrow0).
      apply lookup_app_Some in Hi as [Hi|[Hge Hi]].
      * destruct Hcol. by eapply list_elem_of_lookup_2.
      * apply list_lookup_singleton_Some in Hi as [Hi _].
        replace i with (length row0) by (rewrite (Hd row0 Hrow0); lia).
        by rewrite lookup_app_r, Nat.sub_diag.
Qed.

(** X24: with [output_handle] set, the tweets table of a timeline
    session has, whenever the session ends, a column labelled
    [handle_col] in which every row holds the handle, the rows of earlier
    pages and those padded by the column-wise [concat] included; and
    every row has one cell per column. *)
Theorem timeline_handle_column `{Twalc} (client : Client) (fields : list string)
    (handle dir fmt handle_col : string) (tweets_per_query : Z) (fs : files)
    (user : result Z) (t : tree) (fuel : nat) (e : ending) (st : Session)
    (d : DataFrame) :
  (Timeline.pull client fields handle dir fmt true handle_col
     tweets_per_query user t fs fuel).1 = Some (e, st) →
  df_tweets st = Some d →
  column_filled handle_col (VStr handle) d.
Proof.
  intros Hpull. revert d.
  refine (timeline_pull_invariant client fields handle dir true handle_col
            tweets_per_query fmt
            (λ st, ∀ d, df_tweets st = Some d → column_filled handle_col (VStr handle) d)
            user t fs fuel e st _ _ _ _ Hpull); [done|done| |done].
  intros st0 r st1 Hst Hp d Hd. destruct (truthy (data r)) eqn:Ht.
  - apply timeline_page_Ok in Hp as (links & tweets & _ & _ & -> & Htweets & _); [|done].
    rewrite Htweets in Hd. injection Hd as <-.
    apply set_column_filled, rectangular_timeline_merge.
    intros old Hold. by destruct (Hst old Hold) as (_ & Hrect & _).
  - rewrite timeline_page_falsy in Hp by done. injection Hp as <-. by apply Hst.
Qed.

Lemma timeline_handle_column_witness :
  column_filled "handle" (VStr "nasa")
    (mkDF ["id"; "handle"; "id"] [[VInt 1; VStr "nasa"; VInt 2]]).
Proof.
  apply (@timeline_handle_column plain_twalc two_pages [] "nasa" "out" "csv" "handle" 100
           ∅ (Ok 11348282) only_out 2 Done
           (mkSession None 2 None None None
              (Some (mkDF ["id"; "handle"; "id"] [[VInt 1; VStr "nasa"; VInt 2]])) None
              {[ "out/nasa/data_tweets.csv"
                 := (CsvQuoteAll, mkDF ["id"; "handle"; "id"]
                                       [[VInt 1; VStr "nasa"; VInt 2]]) ]} 2 2)).
  - vm_compute. reflexivity.
  - reflexivity.
Defined.

(** ** Size of the tweets table, any session *)

